(** * Duc: the retrieval-augmented question-answering pipeline

    A shallow embedding of the Python sources
      - [app/utils/citations.py]  ([build_citations]),
      - [app/utils/loaders.py]    ([load_file], [split_docs]),
      - [app/chains.py]           ([get_history], [retrieve_context],
                                   [answer_question]),
      - [app/main.py]             ([chat]) and [app/settings.py],
    together with the properties the specification states about them.

    Python strings are sequences of code points, dictionaries that are only
    read by key are finite maps, the one dictionary whose iteration order is
    observable ([unique_sources]) is an insertion-ordered association list,
    and the calls to the vector store and to the language model are the two
    constructors of a small program type, so that "which external call is
    made, with what, and what happens when it fails" can be stated. *)

From Stdlib Require Import ZArith NArith Ascii String.
From stdpp Require Import base option list gmap pretty.

Local Open Scope Z_scope.

(** ** Python values *)

Module Py.

(** A [str] is a sequence of Unicode code points; [len] counts them. *)
Abbreviation char := N (only parsing).
Abbreviation str := (list N) (only parsing).

(** An ASCII literal of the source, as a [str]. *)
Definition lit (s : string) : str :=
  N_of_ascii <$> String.list_ascii_of_string s.

(** The single character U+2026, the literal "…" of [citations.py]. *)
Definition ellipsis : str := [8230%N].

(** The scalars a metadata dictionary holds.  (Floats are left out.) *)
Inductive value : Type :=
| PNone
| PBool (b : bool)
| PInt (z : Z)
| PStr (s : str).

#[global] Instance value_eq_dec : EqDecision value.
Proof. solve_decision. Defined.

(** Truth value of an object: [bool(v)]. *)
Definition truthy (v : value) : bool :=
  match v with
  | PNone => false
  | PBool b => b
  | PInt z => negb (z =? 0)
  | PStr s => negb (bool_decide (s = []))
  end.

(** [str(v)], which is also what an f-string field [{v}] renders. *)
Definition to_str (v : value) : str :=
  match v with
  | PNone => lit "None"
  | PBool true => lit "True"
  | PBool false => lit "False"
  | PInt z => lit (pretty z)
  | PStr s => s
  end.

(** [dict] objects that are only read by key. *)
Abbreviation dict := (gmap (list N) value) (only parsing).

(** [m.get(k, d)] *)
Definition get (m : dict) (k : str) (d : value) : value :=
  default d (m !! k).

(** [s[:n]] for [n >= 0] *)
Definition prefix_slice (n : nat) (s : str) : str := take n s.

(** [l[-n:]] for [n > 0]: the last [n] elements, all of them when the list
    is shorter. *)
Definition last_slice {A} (n : nat) (l : list A) : list A :=
  drop (length l - n) l.

(** [sep.join(parts)] *)
Fixpoint join (sep : str) (parts : list str) : str :=
  match parts with
  | [] => []
  | [p] => p
  | p :: ps => p ++ sep ++ join sep ps
  end.

(** [str.isspace] on one character: CPython's [_PyUnicode_IsWhitespace]. *)
Definition isspace (c : char) : bool :=
  ((9 <=? c) && (c <=? 13) || (28 <=? c) && (c <=? 32)
   || (c =? 133) || (c =? 160) || (c =? 5760)
   || (8192 <=? c) && (c <=? 8202)
   || (c =? 8232) || (c =? 8233) || (c =? 8239) || (c =? 8287)
   || (c =? 12288))%N.

Fixpoint lstrip (s : str) : str :=
  match s with
  | [] => []
  | c :: s' => if isspace c then lstrip s' else s
  end.

Definition rstrip (s : str) : str := reverse (lstrip (reverse s)).

(** [s.strip()] *)
Definition strip (s : str) : str := rstrip (lstrip s).

(** [s.split(sep)] for a one-character separator: always at least one
    piece, empty pieces kept. *)
Fixpoint split (sep : char) (s : str) : list str :=
  match s with
  | [] => [[]]
  | c :: s' =>
      if (c =? sep)%N then [] :: split sep s'
      else match split sep s' with
           | piece :: pieces => (c :: piece) :: pieces
           | [] => [[c]]
           end
  end.

(** An exception, with the text [str(e)] gives; a call either returns a
    value or raises. *)
Inductive exn : Type := Exception (msg : str).

Definition exn_str (e : exn) : str := let 'Exception msg := e in msg.

Inductive result (A : Type) : Type :=
| Ok (a : A)
| Raise (e : exn).
Arguments Ok {A} a.
Arguments Raise {A} e.

(** [x or d] for an optional integer: [None] and [0] are falsy. *)
Definition int_or (x : option Z) (d : Z) : Z :=
  match x with
  | Some z => if z =? 0 then d else z
  | None => d
  end.

(** The newline character. *)
Definition nl : str := [10%N].

(** An insertion-ordered [dict]: assigning to a key that is present keeps
    the key's position, assigning to a new key appends it. *)
Section OrderedDict.
Context {V : Type}.

Fixpoint od_get (k : str) (d : list (str * V)) : option V :=
  match d with
  | [] => None
  | (k', v) :: d' => if decide (k = k') then Some v else od_get k d'
  end.

Fixpoint od_set (k : str) (v : V) (d : list (str * V)) : list (str * V) :=
  match d with
  | [] => [(k, v)]
  | (k', v') :: d' =>
      if decide (k = k') then (k, v) :: d' else (k', v') :: od_set k v d'
  end.

(** [d.values()], in iteration order *)
Definition od_values (d : list (str * V)) : list V := d.*2.
End OrderedDict.

End Py.

Import Py.

(** ** Documents (langchain's [Document]) *)

Record Document := mkDocument {
  page_content : str;
  metadata : dict;
}.

Definition k_source : str := lit "source".
Definition k_page : str := lit "page".
Definition k_chunk_id : str := lit "chunk_id".
Definition k_filename : str := lit "filename".
Definition k_file_type : str := lit "file_type".
Definition k_original_filename : str := lit "original_filename".

(** ** [app/utils/citations.py] *)

Module Citations.

(** The dictionary stored per key while scanning: it still has "content". *)
Record entry := mkEntry {
  e_source : value;
  e_page : value;
  e_chunk_id : value;
  e_content : str;
  e_snippet : str;
}.

(** A returned citation: the entry after [del citation["content"]]. *)
Record Citation := mkCitation {
  c_source : value;
  c_page : value;
  c_chunk_id : value;
  c_snippet : str;
}.

(** [(content[:240] + "…") if len(content) > 240 else content] *)
Definition snippet_of (content : str) : str :=
  if decide (240 < length content)%nat
  then prefix_slice 240 content ++ ellipsis
  else content.

(** [f"{source}:{meta.get('page', 'none')}"] *)
Definition source_key (source : value) (meta : dict) : str :=
  to_str source ++ lit ":" ++ to_str (get meta k_page (PStr (lit "none"))).

(** The dictionary literal assigned to [unique_sources[source_key]]. *)
Definition entry_of (source : value) (d : Document) : entry :=
  {| e_source := source;
     e_page := get (metadata d) k_page PNone;
     e_chunk_id := get (metadata d) k_chunk_id PNone;
     e_content := page_content d;
     e_snippet := snippet_of (page_content d) |}.

(** One iteration of the first loop.  [d.metadata or {}] reads like
    [d.metadata] for a dictionary. *)
Definition visit (unique_sources : list (str * entry)) (d : Document)
  : list (str * entry) :=
  let meta := metadata d in
  let source := get meta k_source PNone in
  if negb (truthy source) then unique_sources
  else
    let key := source_key source meta in
    match od_get key unique_sources with
    | None => od_set key (entry_of source d) unique_sources
    | Some seen =>
        if decide (length (e_content seen) < length (page_content d))%nat
        then od_set key (entry_of source d) unique_sources
        else unique_sources
    end.

Definition del_content (e : entry) : Citation :=
  {| c_source := e_source e; c_page := e_page e;
     c_chunk_id := e_chunk_id e; c_snippet := e_snippet e |}.

Definition build_citations (docs : list Document) : list Citation :=
  del_content <$> od_values (foldl visit [] docs).

End Citations.

(** ** [app/utils/loaders.py] *)

Module Loaders.

(** A [pathlib.Path], by the two attributes [load_file] reads. *)
Record Path := mkPath {
  name : str;
  suffix : str;
}.

(** The document loaders of [langchain_community] that [load_file] picks
    from; what a loader returns for a file is outside this repository. *)
Inductive loader : Type :=
| PyPDFLoader
| Docx2txtLoader
| UnstructuredMarkdownLoader
| UnstructuredHTMLLoader
| CSVLoader
| TextLoader.

(** The [if suffix == ... elif suffix in {...} ... else] chain. *)
Definition select_loader (suffix : str) : loader :=
  if decide (suffix = lit ".pdf") then PyPDFLoader
  else if decide (suffix ∈ [lit ".docx"; lit ".doc"]) then Docx2txtLoader
  else if decide (suffix ∈ [lit ".md"]) then UnstructuredMarkdownLoader
  else if decide (suffix ∈ [lit ".htm"; lit ".html"])
       then UnstructuredHTMLLoader
  else if decide (suffix ∈ [lit ".csv"]) then CSVLoader
  else TextLoader.

Section LoadFile.
(** [str.lower] *)
Variable lower : str → str.
(** [loader.load()]: the documents a loader extracts from a file, or the
    exception it raises. *)
Variable load : loader → Path → result (list Document).

(** [base_metadata = metadata or {}] followed by
    [base_metadata.update({"filename": ..., "file_type": ...})].  (A
    non-empty [metadata] is updated in place; [upload], the only caller,
    builds a fresh dictionary per file and does not read it again.) *)
Definition base_metadata (path : Path) (metadata : option dict) : dict :=
  let base := default ∅ metadata in
  <[k_file_type := PStr (lower (suffix path))]>
    (<[k_filename := PStr (name path)]> base).

(** The body of [for i, d in enumerate(docs)].  [a.update(b)] is the union
    that prefers [b]. *)
Definition enrich (path : Path) (base : dict) (i : nat) (d : Document)
  : Document :=
  let enriched := metadata d ∪ base in
  let enriched := <[k_chunk_id := PInt (Z.of_nat i)]> enriched in
  let enriched :=
    match enriched !! k_original_filename with
    | None => <[k_source := PStr (name path)]> enriched
    | Some original => <[k_source := original]> enriched
    end in
  {| page_content := page_content d; metadata := enriched |}.

Definition load_file (path : Path) (metadata : option dict)
  : result (list Document) :=
  let base := base_metadata path metadata in
  match load (select_loader (lower (suffix path))) path with
  | Raise e => Raise e
  | Ok docs => Ok (imap (enrich path base) docs)
  end.

End LoadFile.

(** [split_docs] builds langchain's [RecursiveCharacterTextSplitter] from
    the two sizes, with [len] as the length function, and returns what its
    [split_documents] gives.  The splitter is a library outside these
    sources: it is a parameter here, and nothing is proved about the chunks
    it cuts. *)
Section SplitDocs.
Variable split_documents : Z → Z → list Document → result (list Document).

Definition split_docs (docs : list Document) (chunk_size chunk_overlap : Z)
  : result (list Document) :=
  split_documents chunk_size chunk_overlap docs.

End SplitDocs.

End Loaders.

(** ** [app/chains.py] *)

Module Chains.
Import Citations.

(** A chat message: [msg.type] is "human" or "ai". *)
Inductive msg_type : Type := human | ai.

Record Message := mkMessage {
  m_type : msg_type;
  m_content : str;
}.

(** [msg.type.upper()] *)
Definition type_upper (t : msg_type) : str :=
  match t with
  | human => lit "HUMAN"
  | ai => lit "AI"
  end.

(** [_SESSION_STORE]: session id to the messages of its history object. *)
Abbreviation SessionStore := (gmap (list N) (list Message)) (only parsing).

(** The [filter] argument of [similarity_search]:
    [{"source": {"$in": names}}]. *)
Inductive where_filter : Type := SourceIn (names : list str).

(** The messages of a formatted prompt. *)
Inductive prompt_role : Type := system | user.

(** The pipeline's result dictionary. *)
Record Answer := mkAnswer {
  answer : str;
  citations : list Citation;
}.

(** Programs over the two external services.  A call hands the service's
    outcome, a value or an exception, to the rest of the program. *)
Inductive prog (A : Type) : Type :=
| Return (a : A)
| SimilaritySearch (question : str) (k : Z) (filter : option where_filter)
    (next : result (list Document) → prog A)
| LlmInvoke (messages : list (prompt_role * str))
    (next : result str → prog A).
Arguments Return {A} a.
Arguments SimilaritySearch {A} question k filter next.
Arguments LlmInvoke {A} messages next.

Fixpoint bind {A B} (p : prog A) (f : A → prog B) : prog B :=
  match p with
  | Return a => f a
  | SimilaritySearch q k flt next =>
      SimilaritySearch q k flt (λ r, bind (next r) f)
  | LlmInvoke msgs next => LlmInvoke msgs (λ r, bind (next r) f)
  end.

(** The external world of one request: what the vector store and the model
    answer to each call.  (The store embeds the question itself: a request
    that makes no search makes no embedding call either.) *)
Record World := mkWorld {
  similarity_search :
    str → Z → option where_filter → result (list Document);
  invoke : list (prompt_role * str) → result str;
}.

Inductive event : Type :=
| EvSearch (question : str) (k : Z) (filter : option where_filter)
| EvInvoke (messages : list (prompt_role * str)).

(** Running a program in a world: its value and the calls it made. *)
Fixpoint run {A} (W : World) (p : prog A) : A * list event :=
  match p with
  | Return a => (a, [])
  | SimilaritySearch q k flt next =>
      let '(a, evs) := run W (next (similarity_search W q k flt)) in
      (a, EvSearch q k flt :: evs)
  | LlmInvoke msgs next =>
      let '(a, evs) := run W (next (invoke W msgs)) in
      (a, EvInvoke msgs :: evs)
  end.

Definition get_history (store : SessionStore) (session_id : str)
  : SessionStore * list Message :=
  match store !! session_id with
  | None => (<[session_id := []]> store, [])
  | Some messages => (store, messages)
  end.

(** [history.add_user_message] / [history.add_ai_message]: the history
    object is the one held by the store. *)
Definition add_message (store : SessionStore) (session_id : str)
  (m : Message) : SessionStore :=
  alter (λ messages, messages ++ [m]) session_id store.

Definition retrieve_context (question : str) (k : Z)
  (filter_docs : option (list str)) : prog (result (list Document)) :=
  match filter_docs with
  | Some (name :: names) =>
      SimilaritySearch question k (Some (SourceIn (name :: names))) Return
  | Some [] | None => SimilaritySearch question k None Return
  end.

(** [f"[Source: {source}, Page: {page}]\n{d.page_content}"] *)
Definition context_part (d : Document) : str :=
  let source := get (metadata d) k_source (PStr (lit "Unknown")) in
  let page := get (metadata d) k_page (PStr (lit "?")) in
  lit "[Source: " ++ to_str source ++ lit ", Page: " ++ to_str page
    ++ lit "]" ++ nl ++ page_content d.

(** [f"{msg.type.upper()}: {msg.content}"] *)
Definition history_line (m : Message) : str :=
  type_upper (m_type m) ++ lit ": " ++ m_content m.

Section Pipeline.
(** The text of [SYSTEM_PROMPT]. *)
Variable SYSTEM_PROMPT : str.

(** [PROMPT.format_messages(context=..., question=..., history=...)] *)
Definition format_messages (context question history : str)
  : list (prompt_role * str) :=
  [ (system, SYSTEM_PROMPT);
    (user, lit "Context:" ++ nl ++ context ++ nl ++ nl
           ++ lit "Question: " ++ question ++ nl ++ nl
           ++ lit "Chat history (may help):" ++ nl ++ history) ].

Definition answer_question (store : SessionStore) (question session_id : str)
  (k : Z) (filter_docs : option (list str))
  : prog (SessionStore * result Answer) :=
  bind (retrieve_context question k filter_docs) (λ retrieved,
    match retrieved with
    | Raise e => Return (store, Raise e)
    | Ok docs =>
        let context_text :=
          join (nl ++ nl ++ lit "---" ++ nl ++ nl) (context_part <$> docs) in
        let '(store, messages) := get_history store session_id in
        let recent_messages := last_slice 6 messages in
        let history_text := join nl (history_line <$> recent_messages) in
        let msg := format_messages context_text question history_text in
        LlmInvoke msg (λ response,
          match response with
          | Raise e => Return (store, Raise e)
          | Ok content =>
              let store := add_message store session_id
                             (mkMessage human question) in
              let store := add_message store session_id
                             (mkMessage ai content) in
              Return (store,
                      Ok {| answer := content;
                            citations := build_citations docs |})
          end)
    end).

End Pipeline.

End Chains.

(** ** [app/settings.py] and [app/main.py] *)

Module Main.
Import Citations Chains.

Record Settings := mkSettings {
  chunk_size : Z;
  chunk_overlap : Z;
  max_context_docs : Z;
}.

(** The defaults of the [Settings] class. *)
Definition default_settings : Settings :=
  {| chunk_size := 1500; chunk_overlap := 200; max_context_docs := 6 |}.

Inductive response : Type :=
| JSONResponse (content : Answer)
| HTTPException (status_code : Z) (detail : str).

(** The [filter_docs] that [chat] computes from its [documents] field. *)
Definition parse_documents (documents : option str) : option (list str) :=
  match documents with
  | None => None
  | Some documents =>
      if bool_decide (documents ≠ []) && bool_decide (strip documents ≠ [])
      then Some (strip <$>
                   filter (λ doc, strip doc ≠ []) (split 44%N documents))
      else None
  end.

Section Chat.
Variable SYSTEM_PROMPT : str.
Variable settings : Settings.

Definition chat (store : SessionStore) (question session_id : str)
  (k : option Z) (documents : option str)
  : prog (SessionStore * response) :=
  if bool_decide (question = []) || bool_decide (strip question = [])
  then Return (store, HTTPException 400 (lit "Question cannot be empty"))
  else
    let top_k := int_or k (max_context_docs settings) in
    let filter_docs := parse_documents documents in
    bind (answer_question SYSTEM_PROMPT store question session_id top_k
            filter_docs)
      (λ '(store, outcome),
        match outcome with
        | Ok result => Return (store, JSONResponse result)
        | Raise e =>
            Return (store,
                    HTTPException 500 (lit "Chat failed: " ++ exn_str e))
        end).

End Chat.

End Main.

(** ** [app/main.py]: uploading, listing and deleting documents *)

Module Backend.
Import Loaders Main.

Definition k_upload_id : str := lit "upload_id".
Definition k_upload_timestamp : str := lit "upload_timestamp".
Definition k_file_size : str := lit "file_size".

(** An insertion-ordered [dict] with keys of any type that has a decidable
    equality. *)
Section Assoc.
Context {K V : Type} `{EqDecision K}.

Fixpoint assoc_get (k : K) (d : list (K * V)) : option V :=
  match d with
  | [] => None
  | (k', v) :: d' => if decide (k = k') then Some v else assoc_get k d'
  end.

Fixpoint assoc_set (k : K) (v : V) (d : list (K * V)) : list (K * V) :=
  match d with
  | [] => [(k, v)]
  | (k', v') :: d' =>
      if decide (k = k') then (k, v) :: d' else (k', v') :: assoc_set k v d'
  end.
End Assoc.

(** Two scalars are the same dictionary key when they are equal in Python:
    [True] is [1] and [False] is [0]. *)
Definition dict_key (v : value) : value :=
  match v with
  | PBool b => PInt (if b then 1 else 0)
  | _ => v
  end.

(** What [collection.get()] returns: the ids and, row by row, the metadata
    of the stored chunks; a chunk stored without metadata has [None]. *)
Record get_result := mkGetResult {
  ids : list str;
  metadatas : option (list (option dict));
}.

(** An uploaded file: its name and what [await f.read()] gives. *)
Record UploadFile := mkUploadFile {
  filename : str;
  read : result (list Byte.byte);
}.

(** The response of an endpoint: its body, or the [HTTPException] it
    raises. *)
Inductive reply (A : Type) : Type :=
| Success (body : A)
| Failure (status_code : Z) (detail : str).
Arguments Success {A} body.
Arguments Failure {A} status_code detail.

(** Programs over what these endpoints call: the clock, [uuid4], the
    temporary file, a document loader, [unlink], the splitter, the vector
    store's [add_documents], and the collection's [get] and [delete]. *)
Inductive io (A : Type) : Type :=
| Pure (a : A)
| Time (next : Z → io A)
| Uuid4Hex (next : str → io A)
| TempFile (suffix : str) (content : list Byte.byte)
    (next : result Path → io A)
| Load (l : loader) (path : Path) (next : result (list Document) → io A)
| Unlink (path : Path) (next : result unit → io A)
| Split (docs : list Document) (size overlap : Z)
    (next : result (list Document) → io A)
| Add (chunks : list Document) (next : result (list str) → io A)
| Get (next : result (option get_result) → io A)
| Delete (ids : list str) (next : result unit → io A).
Arguments Pure {A} a.
Arguments Time {A} next.
Arguments Uuid4Hex {A} next.
Arguments TempFile {A} suffix content next.
Arguments Load {A} l path next.
Arguments Unlink {A} path next.
Arguments Split {A} docs size overlap next.
Arguments Add {A} chunks next.
Arguments Get {A} next.
Arguments Delete {A} ids next.

(** A call that was made, with what it was answered. *)
Inductive event : Type :=
| ETime (now : Z)
| EUuid4Hex (hex : str)
| ETempFile (suffix : str) (content : list Byte.byte) (r : result Path)
| ELoad (l : loader) (path : Path) (r : result (list Document))
| EUnlink (path : Path) (r : result unit)
| ESplit (docs : list Document) (size overlap : Z)
    (r : result (list Document))
| EAdd (chunks : list Document) (r : result (list str))
| EGet (r : result (option get_result))
| EDelete (ids : list str) (r : result unit).

(** [exec p t a]: the program [p] can make the calls [t], answered as [t]
    says, and then ends with [a]. *)
Inductive exec {A : Type} : io A → list event → A → Prop :=
| exec_Pure a : exec (Pure a) [] a
| exec_Time next now t a :
    exec (next now) t a → exec (Time next) (ETime now :: t) a
| exec_Uuid4Hex next hex t a :
    exec (next hex) t a → exec (Uuid4Hex next) (EUuid4Hex hex :: t) a
| exec_TempFile suffix content next r t a :
    exec (next r) t a →
    exec (TempFile suffix content next) (ETempFile suffix content r :: t) a
| exec_Load l path next r t a :
    exec (next r) t a → exec (Load l path next) (ELoad l path r :: t) a
| exec_Unlink path next r t a :
    exec (next r) t a → exec (Unlink path next) (EUnlink path r :: t) a
| exec_Split docs size overlap next r t a :
    exec (next r) t a →
    exec (Split docs size overlap next) (ESplit docs size overlap r :: t) a
| exec_Add chunks next r t a :
    exec (next r) t a → exec (Add chunks next) (EAdd chunks r :: t) a
| exec_Get next r t a :
    exec (next r) t a → exec (Get next) (EGet r :: t) a
| exec_Delete ids next r t a :
    exec (next r) t a → exec (Delete ids next) (EDelete ids r :: t) a.

(** The exception of [None.get(...)]. *)
Definition attribute_error : exn :=
  Exception (lit "'NoneType' object has no attribute 'get'").

(** The exception of an index past the end of a list. *)
Definition index_error : exn := Exception (lit "list index out of range").

(** *** [list_documents] *)

(** One entry of the listing. *)
Record doc_info := mkDocInfo {
  d_filename : value;
  d_upload_id : value;
  d_upload_timestamp : value;
  d_file_type : value;
  d_file_size : value;
  d_chunks : Z;
}.

Record listing := mkListing {
  total_documents : nat;
  total_chunks : nat;
  documents : list doc_info;
}.

(** [metadata.get('original_filename', metadata.get('source', 'Unknown'))] *)
Definition listed_name (metadata : dict) : value :=
  get metadata k_original_filename
    (get metadata k_source (PStr (lit "Unknown"))).

(** The dictionary stored for a name that is seen for the first time. *)
Definition new_document (name : value) (metadata : dict) : doc_info :=
  {| d_filename := name;
     d_upload_id := get metadata k_upload_id (PStr (lit "N/A"));
     d_upload_timestamp :=
       get metadata k_upload_timestamp (PStr (lit "N/A"));
     d_file_type := get metadata k_file_type (PStr (lit "N/A"));
     d_file_size := get metadata k_file_size (PInt 0);
     d_chunks := 0 |}.

(** [info["chunks"] += 1] *)
Definition add_chunk (info : doc_info) : doc_info :=
  {| d_filename := d_filename info;
     d_upload_id := d_upload_id info;
     d_upload_timestamp := d_upload_timestamp info;
     d_file_type := d_file_type info;
     d_file_size := d_file_size info;
     d_chunks := d_chunks info + 1 |}.

(** The body of the loop over [result['metadatas']], for a row that has
    metadata. *)
Definition count_chunk (documents : list (value * doc_info))
  (metadata : dict) : list (value * doc_info) :=
  let name := listed_name metadata in
  let documents :=
    match assoc_get (dict_key name) documents with
    | None => assoc_set (dict_key name) (new_document name metadata) documents
    | Some _ => documents
    end in
  match assoc_get (dict_key name) documents with
  | Some info => assoc_set (dict_key name) (add_chunk info) documents
  | None => documents
  end.

(** The loop; a row without metadata raises. *)
Fixpoint count_documents (documents : list (value * doc_info))
  (rows : list (option dict)) : result (list (value * doc_info)) :=
  match rows with
  | [] => Ok documents
  | None :: _ => Raise attribute_error
  | Some metadata :: rows' =>
      count_documents (count_chunk documents metadata) rows'
  end.

(** The rows that are looped over: none unless
    [result and result['metadatas']]. *)
Definition rows_of (result : option get_result) : list (option dict) :=
  match result with
  | Some res => default [] (metadatas res)
  | None => []
  end.

(** [len(result['ids']) if result else 0] *)
Definition ids_of (result : option get_result) : list str :=
  match result with
  | Some res => ids res
  | None => []
  end.

Definition list_documents : io (reply listing) :=
  Get (λ got,
    match got with
    | Raise e =>
        Pure (Failure 500 (lit "Failed to list documents: " ++ exn_str e))
    | Ok result =>
        match count_documents [] (rows_of result) with
        | Raise e =>
            Pure (Failure 500
                    (lit "Failed to list documents: " ++ exn_str e))
        | Ok documents =>
            Pure (Success
                    {| total_documents := length documents;
                       total_chunks := length (ids_of result);
                       documents := documents.*2 |})
        end
    end).

(** *** [delete_document] and [delete_all_documents] *)

Record deletion := mkDeletion {
  message : str;
  chunks_deleted : nat;
}.

(** [metadata.get('original_filename', metadata.get('source', ''))] *)
Definition deleted_name (metadata : dict) : value :=
  get metadata k_original_filename (get metadata k_source (PStr [])).

(** The loop of [delete_document] from row [i] on, with the ids and the
    count collected so far. *)
Fixpoint matching_ids (filename : str) (ids : list str) (i : nat)
  (rows : list (option dict)) (ids_to_delete : list str)
  (chunks_deleted : nat) : result (list str * nat) :=
  match rows with
  | [] => Ok (ids_to_delete, chunks_deleted)
  | None :: _ => Raise attribute_error
  | Some metadata :: rows' =>
      if decide (deleted_name metadata = PStr filename)
      then match ids !! i with
           | None => Raise index_error
           | Some id =>
               matching_ids filename ids (S i) rows'
                 (ids_to_delete ++ [id]) (S chunks_deleted)
           end
      else matching_ids filename ids (S i) rows' ids_to_delete
             chunks_deleted
  end.

Definition delete_document (filename : str) : io (reply deletion) :=
  let failed e :=
    Failure 500 (lit "Failed to delete document: " ++ exn_str e) in
  Get (λ got,
    match got with
    | Raise e => Pure (failed e)
    | Ok result =>
        match matching_ids filename (ids_of result) 0 (rows_of result)
                [] 0 with
        | Raise e => Pure (failed e)
        | Ok ([], _) =>
            Pure (Failure 404
                    (lit "Document '" ++ filename ++ lit "' not found"))
        | Ok (ids_to_delete, chunks_deleted) =>
            Delete ids_to_delete (λ deleted,
              match deleted with
              | Raise e => Pure (failed e)
              | Ok _ =>
                  Pure (Success
                          {| message := lit "Successfully deleted '"
                                          ++ filename ++ lit "'";
                             chunks_deleted := chunks_deleted |})
              end)
        end
    end).

Definition delete_all_documents : io (reply deletion) :=
  let failed e :=
    Failure 500 (lit "Failed to delete all documents: " ++ exn_str e) in
  Get (λ got,
    match got with
    | Raise e => Pure (failed e)
    | Ok result =>
        match ids_of result with
        | [] =>
            Pure (Success {| message := lit "No documents to delete";
                             chunks_deleted := 0 |})
        | all_ids =>
            Delete all_ids (λ deleted,
              match deleted with
              | Raise e => Pure (failed e)
              | Ok _ =>
                  Pure (Success
                          {| message :=
                               lit "Successfully deleted all documents";
                             chunks_deleted := length all_ids |})
              end)
        end
    end).

(** *** [upload] *)

Fixpoint io_bind {A B} (p : io A) (f : A → io B) : io B :=
  match p with
  | Pure a => f a
  | Time next => Time (λ r, io_bind (next r) f)
  | Uuid4Hex next => Uuid4Hex (λ r, io_bind (next r) f)
  | TempFile suffix content next =>
      TempFile suffix content (λ r, io_bind (next r) f)
  | Load l path next => Load l path (λ r, io_bind (next r) f)
  | Unlink path next => Unlink path (λ r, io_bind (next r) f)
  | Split docs size overlap next =>
      Split docs size overlap (λ r, io_bind (next r) f)
  | Add chunks next => Add chunks (λ r, io_bind (next r) f)
  | Get next => Get (λ r, io_bind (next r) f)
  | Delete ids next => Delete ids (λ r, io_bind (next r) f)
  end.

Record upload_body := mkUploadBody {
  indexed_files : list str;
  chunks : nat;
}.

Section Upload.
(** [str.lower] *)
Variable lower : str → str.
(** [Path(name).suffix] *)
Variable suffix_of : str → str.
Variable settings : Settings.

(** The [file_metadata] dictionary of one file. *)
Definition file_metadata (f : UploadFile) (timestamp : Z) (unique_id : str)
  (file_size : nat) : dict :=
  {[ k_original_filename := PStr (filename f);
     k_upload_id := PStr (lit (pretty timestamp) ++ lit "_" ++ unique_id);
     k_upload_timestamp := PInt timestamp;
     k_file_size := PInt (Z.of_nat file_size) ]}.

(** The loop over the files, with [uploaded] and [all_docs] as they are
    when it reaches [files]; it ends with both lists, or with the
    exception that leaves the loop.  [load_file] runs on the loader's
    answer, and the [finally] clause unlinks the temporary file whether
    loading raised or not; an exception of [unlink] replaces the one of
    [load_file]. *)
Fixpoint upload_files (timestamp : Z) (files : list UploadFile)
  (uploaded : list str) (all_docs : list Document)
  : io (result (list str * list Document)) :=
  match files with
  | [] => Pure (Ok (uploaded, all_docs))
  | f :: files' =>
      let file_suffix := suffix_of (filename f) in
      Uuid4Hex (λ hex,
        let unique_id := prefix_slice 8 hex in
        match read f with
        | Raise e => Pure (Raise e)
        | Ok file_content =>
            let file_size := length file_content in
            TempFile file_suffix file_content (λ created,
              match created with
              | Raise e => Pure (Raise e)
              | Ok tmp_path =>
                  let metadata :=
                    file_metadata f timestamp unique_id file_size in
                  Load (select_loader (lower (suffix tmp_path))) tmp_path
                    (λ loaded,
                      let docs :=
                        load_file lower (λ _ _, loaded) tmp_path
                          (Some metadata) in
                      Unlink tmp_path (λ unlinked,
                        match unlinked, docs with
                        | Raise e, _ => Pure (Raise e)
                        | Ok _, Raise e => Pure (Raise e)
                        | Ok _, Ok docs =>
                            upload_files timestamp files'
                              (uploaded ++ [filename f]) (all_docs ++ docs)
                        end))
              end)
        end)
  end.

Definition upload (files : list UploadFile) : io (reply upload_body) :=
  let failed e := Failure 500 (lit "Upload failed: " ++ exn_str e) in
  match files with
  | [] => Pure (Failure 400 (lit "No files provided"))
  | _ :: _ =>
      Time (λ timestamp,
        io_bind (upload_files timestamp files [] []) (λ looped,
          match looped with
          | Raise e => Pure (failed e)
          | Ok (uploaded, all_docs) =>
              Split all_docs (chunk_size settings) (chunk_overlap settings)
                (λ split,
                  match split with
                  | Raise e => Pure (failed e)
                  | Ok pieces =>
                      Add pieces (λ added,
                        match added with
                        | Raise e => Pure (failed e)
                        | Ok _ =>
                            Pure (Success
                                    {| indexed_files := uploaded;
                                       chunks := length pieces |})
                        end)
                  end)
          end))
  end.

End Upload.

End Backend.

(** * Vocabulary of the properties

    The notions the statements below are written in, and the example data
    they are tried on. *)

Module CitationSpec.
Import Citations.

(** The value [build_citations] reads as a chunk's source. *)
Definition source_of (d : Document) : value :=
  get (metadata d) k_source PNone.

(** A chunk is scanned further only when its source is truthy. *)
Definition has_source (d : Document) : bool := truthy (source_of d).

(** The deduplication key of a chunk. *)
Definition key_of (d : Document) : str :=
  source_key (source_of d) (metadata d).

(** The citation built from one chunk alone. *)
Definition citation_of (d : Document) : Citation :=
  del_content (entry_of (source_of d) d).

(** The (source, page) pair a chunk shows in its citation. *)
Definition pair_of (d : Document) : value * value :=
  (source_of d, get (metadata d) k_page PNone).

Definition citation_pair (c : Citation) : value * value :=
  (c_source c, c_page c).

(** The distinct elements of a list, each at the place of its first
    occurrence. *)
Fixpoint first_seen {A} `{EqDecision A} (l : list A) : list A :=
  match l with
  | [] => []
  | x :: l' => x :: filter (λ y, y ≠ x) (first_seen l')
  end.

(** [w] is the longest chunk of [l], the earliest one among equally long
    chunks. *)
Definition first_longest (w : Document) (l : list Document) : Prop :=
  ∃ i, l !! i = Some w ∧
    ∀ j d, l !! j = Some d →
      (length (page_content d) ≤ length (page_content w))%nat ∧
      (j < i → length (page_content d) < length (page_content w))%nat.

(** The chunks of [docs] that compete for the citation of key [k]. *)
Definition candidates (k : str) (docs : list Document) : list Document :=
  filter (λ d, key_of d = k) (filter (λ d, has_source d = true) docs).

(** What the scan stores for a chunk that wins its key. *)
Definition stored (w : Document) : str * entry :=
  (key_of w, entry_of (source_of w) w).

(** Example chunks. *)

Definition chunk (source : value) (page : option value) (content : string)
  : Document :=
  {| page_content := lit content;
     metadata := match page with
                 | Some p => <[k_page := p]> {[ k_source := source ]}
                 | None => {[ k_source := source ]}
                 end |}.

(** Page 1 of "a" as the number 1 and as the text "1", and a chunk of
    "b" between them. *)
Definition a_page_text : Document :=
  chunk (PStr (lit "a")) (Some (PStr (lit "1"))) "x".
Definition b_no_page : Document := chunk (PStr (lit "b")) None "z".
Definition a_page_int : Document :=
  chunk (PStr (lit "a")) (Some (PInt 1)) "yyy".
(** A shorter chunk of the same page. *)
Definition a_page_int_short : Document :=
  chunk (PStr (lit "a")) (Some (PInt 1)) "yy".

(** A chunk with the metadata the loaders of this program give it: the
    source is a string, the page an integer when there is one. *)
Definition plain (d : Document) : Prop :=
  (∃ s, metadata d !! k_source = Some (PStr s)) ∧
  (metadata d !! k_page = None ∨ ∃ z, metadata d !! k_page = Some (PInt z)).

(** The elements of a list that are the first with their value of [f]. *)
Fixpoint firsts {A K} `{EqDecision K} (f : A → K) (l : list A) : list A :=
  match l with
  | [] => []
  | x :: l' => x :: filter (λ y, f y ≠ f x) (firsts f l')
  end.

(** A character of a rendered integer: a digit or the minus sign. *)
Definition numeric (c : char) : Prop := (c = 45 ∨ 48 ≤ c ≤ 57)%N.

End CitationSpec.

Module LoaderSpec.
Import Loaders.

(** The precedence the specification states, lowest first: the caller's
    metadata, the loader's metadata, then the computed [filename],
    [file_type], [chunk_id] and [source], the source being the caller's
    [original_filename] when it has one and the base name otherwise. *)
Definition stated_metadata (lower : str → str) (path : Path)
  (caller : option dict) (loader_meta : dict) (i : nat) : dict :=
  let caller := default ∅ caller in
  let source := default (PStr (name path)) (caller !! k_original_filename) in
  <[k_source := source]>
    (<[k_chunk_id := PInt (Z.of_nat i)]>
       (<[k_file_type := PStr (lower (suffix path))]>
          (<[k_filename := PStr (name path)]> (loader_meta ∪ caller)))).

(** The precedence of the code, as a lookup: [source] and [chunk_id] are
    computed last, the loader's metadata comes next, then the computed
    [filename] and [file_type], then the caller's metadata. *)
Definition merged_lookup (lower : str → str) (path : Path)
  (caller : option dict) (loader_meta : dict) (i : nat) (key : str)
  : option value :=
  let caller := default ∅ caller in
  if decide (key = k_source) then
    Some (default (PStr (name path))
            ((loader_meta ∪ caller) !! k_original_filename))
  else if decide (key = k_chunk_id) then Some (PInt (Z.of_nat i))
  else match loader_meta !! key with
       | Some v => Some v
       | None =>
           if decide (key = k_file_type)
           then Some (PStr (lower (suffix path)))
           else if decide (key = k_filename) then Some (PStr (name path))
           else caller !! key
       end.

(** Example: an upload stored under a temporary name. *)

Definition tmp_path : Path :=
  {| name := lit "tmpab12.md"; suffix := lit ".md" |}.

Definition upload_metadata : dict :=
  {[ k_original_filename := PStr (lit "notes.md") ]}.

(** A loader whose documents carry a [filename] of their own. *)
Definition titled_loader (l : loader) (p : Path) : result (list Document) :=
  Ok [ {| page_content := lit "first";
          metadata := {[ k_source := PStr (lit "/tmp/tmpab12.md") ]} |};
       {| page_content := lit "second";
          metadata := {[ k_source := PStr (lit "/tmp/tmpab12.md");
                         k_filename := PStr (lit "inner.md") ]} |} ].

End LoaderSpec.

Module PipelineSpec.
Import Citations CitationSpec Chains Main.

(** A string that is empty or made of whitespace only. *)
Definition blank (s : str) : Prop := Forall (λ c, isspace c = true) s.

(** The filter as the specification words it: split on commas, trim each
    entry, drop the empty entries; no entries when the field is absent. *)
Definition stated_filter (documents : option str) : list str :=
  match documents with
  | None => []
  | Some documents =>
      filter (λ entry, entry ≠ []) (strip <$> split 44%N documents)
  end.

(** The search restriction for a list of names: none for the empty list. *)
Definition restriction (names : list str) : option where_filter :=
  match names with
  | [] => None
  | _ :: _ => Some (SourceIn names)
  end.



(** An event that is a search. *)
Definition is_search (e : event) : bool :=
  match e with
  | EvSearch _ _ _ => true
  | EvInvoke _ => false
  end.

(** The messages of a session, none when the store has no entry for it. *)
Definition messages_of (store : SessionStore) (session_id : str)
  : list Message :=
  default [] (store !! session_id).

(** Example worlds. *)

Definition beta : Document :=
  chunk (PStr (lit "B.pdf")) (Some (PInt 0)) "beta, the closest match".
Definition alpha_one : Document :=
  chunk (PStr (lit "A.pdf")) (Some (PInt 0)) "alpha one".
Definition alpha_two : Document :=
  chunk (PStr (lit "A.pdf")) (Some (PInt 1)) "alpha two".

Definition indexed_chunks : list Document := [beta; alpha_one; alpha_two].

Definition admits (flt : option where_filter) (d : Document) : bool :=
  match flt with
  | None => true
  | Some (SourceIn names) =>
      match metadata d !! k_source with
      | Some (PStr s) => bool_decide (s ∈ names)
      | _ => false
      end
  end.

(** A search over [indexed_chunks], listed by falling similarity: the first
    [k] of the chunks that the filter admits. *)
Definition search_indexed (question : str) (k : Z)
  (flt : option where_filter) : result (list Document) :=
  Ok (take (Z.to_nat k)
        (filter (λ d, admits flt d = true) indexed_chunks)).

(** A world whose model answers. *)
Definition answering_world : World :=
  {| similarity_search := search_indexed;
     invoke := λ _, Ok (lit "Alpha.") |}.

(** A world whose model fails. *)
Definition failing_world : World :=
  {| similarity_search := search_indexed;
     invoke := λ _, Raise (Exception (lit "rate limit")) |}.

(** Seven messages of one session, oldest first. *)
Definition seven_messages : list Message :=
  [ mkMessage human (lit "q1"); mkMessage ai (lit "a1");
    mkMessage human (lit "q2"); mkMessage ai (lit "a2");
    mkMessage human (lit "q3"); mkMessage ai (lit "a3");
    mkMessage human (lit "q4") ].

(** A short stand-in for the system prompt. *)
Definition short_prompt : str := lit "You are Duc.".

(** The prompt that [answer_question] assembles from the retrieved chunks
    and the messages the session holds at that time. *)
Definition prompt_of (SYSTEM_PROMPT : str) (docs : list Document)
  (messages : list Message) (question : str) : list (prompt_role * str) :=
  format_messages SYSTEM_PROMPT
    (join (nl ++ nl ++ lit "---" ++ nl ++ nl) (context_part <$> docs))
    question
    (join nl (history_line <$> last_slice 6 messages)).

(** The response [chat] makes of the pipeline's outcome. *)
Definition response_of (outcome : result Answer) : response :=
  match outcome with
  | Ok result => JSONResponse result
  | Raise e => HTTPException 500 (lit "Chat failed: " ++ exn_str e)
  end.

End PipelineSpec.

Module SessionSpec.
Import Citations Chains Main PipelineSpec.

(** The form fields of one chat request. *)
Record request := mkRequest {
  rq_question : str;
  rq_session_id : str;
  rq_k : option Z;
  rq_documents : option str;
}.

Section Serve.
Variable SYSTEM_PROMPT : str.
Variable settings : Settings.



End Serve.


End SessionSpec.

Module ParseSpec.

(** A string without leading or trailing whitespace. *)
Definition trimmed (s : str) : Prop :=
  lstrip s = s ∧ lstrip (reverse s) = reverse s.

(** A name as the document filter holds it: not empty, trimmed, and
    without a comma. *)
Definition filter_name (s : str) : Prop :=
  s ≠ [] ∧ trimmed s ∧ 44%N ∉ s.

End ParseSpec.

Module BackendSpec.
Import Loaders Main Backend.

(** The dictionary key under which a row is counted. *)
Definition name_key (metadata : dict) : value :=
  dict_key (listed_name metadata).

(** The rows counted under the key [k]. *)
Definition named (k : value) (rows : list dict) : list dict :=
  filter (λ metadata, name_key metadata = k) rows.

(** The entry of a document whose first row is [metadata], with [n]
    chunks. *)
Definition listed (metadata : dict) (n : Z) : doc_info :=
  {| d_filename := listed_name metadata;
     d_upload_id := get metadata k_upload_id (PStr (lit "N/A"));
     d_upload_timestamp :=
       get metadata k_upload_timestamp (PStr (lit "N/A"));
     d_file_type := get metadata k_file_type (PStr (lit "N/A"));
     d_file_size := get metadata k_file_size (PInt 0);
     d_chunks := n |}.

(** The entry for the key [k]: taken from the first row counted under it,
    with as many chunks as there are such rows. *)
Definition summary (rows : list dict) (k : value) : doc_info :=
  match named k rows with
  | metadata :: others => listed metadata (Z.of_nat (length (named k rows)))
  | [] => listed ∅ 0
  end.

(** The sum of the chunk counts of a listing. *)
Definition chunk_sum (infos : list doc_info) : Z :=
  foldr (λ info n, d_chunks info + n) 0 infos.

(** The ids of the rows that [delete_document filename] matches, the ids
    and the rows being listed side by side. *)
Definition doomed (filename : str) (ids : list str) (rows : list dict)
  : list str :=
  (filter (λ row, deleted_name row.2 = PStr filename) (zip ids rows)).*1.

(** A row that names its document itself. *)
Definition has_name (metadata : dict) : Prop :=
  is_Some (metadata !! k_original_filename) ∨
  is_Some (metadata !! k_source).

(** Example: a store of three chunks, two of "a.pdf" and one of "b.txt",
    and a store whose chunks name no document. *)
Definition row_a1 : dict :=
  {[ k_original_filename := PStr (lit "a.pdf");
     k_source := PStr (lit "a.pdf");
     k_upload_id := PStr (lit "17_ab12cd34");
     k_file_size := PInt 10 ]}.
Definition row_b : dict := {[ k_source := PStr (lit "b.txt") ]}.
Definition row_a2 : dict :=
  {[ k_original_filename := PStr (lit "a.pdf");
     k_source := PStr (lit "a.pdf");
     k_page := PInt 1 ]}.
Definition three_rows : get_result :=
  {| ids := [lit "id1"; lit "id2"; lit "id3"];
     metadatas := Some [Some row_a1; Some row_b; Some row_a2] |}.
Definition row_page : dict := {[ k_page := PInt 0 ]}.
Definition nameless_rows : get_result :=
  {| ids := [lit "id1"; lit "id2"];
     metadatas := Some [Some row_page; Some row_page] |}.

End BackendSpec.

Module UploadSpec.
Import Py Loaders Main Backend BackendSpec.

(** The exception a call was answered with, if it was. *)
Definition raised (e : event) : option exn :=
  match e with
  | ETempFile _ _ (Raise x) | ELoad _ _ (Raise x) | EUnlink _ (Raise x)
  | ESplit _ _ _ (Raise x) | EAdd _ (Raise x) | EGet (Raise x)
  | EDelete _ (Raise x) => Some x
  | _ => None
  end.

(** The calls that the loop of [upload] makes for a file. *)
Definition file_call (e : event) : Prop :=
  match e with
  | EUuid4Hex _ | ETempFile _ _ _ | ELoad _ _ _ | EUnlink _ _ => True
  | _ => False
  end.

(** The documents a loader returned. *)
Definition loads (e : event) : option (list Document) :=
  match e with
  | ELoad _ _ (Ok docs) => Some docs
  | _ => None
  end.

(** The documents of all loaders, in the order of the calls. *)
Definition loaded_docs (t : list event) : list Document :=
  concat (omap loads t).

(** In the calls [t], a temporary file that was created is loaded by the
    next call and unlinked by the one after, and nothing is unlinked but
    such a file. *)
Definition temp_files_tidy (t : list event) : Prop :=
  (∀ i sfx content path,
     t !! i = Some (ETempFile sfx content (Ok path)) →
     ∃ l loaded unlinked,
       t !! S i = Some (ELoad l path loaded) ∧
       t !! S (S i) = Some (EUnlink path unlinked)) ∧
  (∀ j path unlinked,
     t !! j = Some (EUnlink path unlinked) →
     ∃ i sfx content,
       j = S (S i) ∧ t !! i = Some (ETempFile sfx content (Ok path))).


(** Where a document handed to the splitter comes from: the file, the
    answers of [uuid4], the temporary file and the loader, and the
    document of the loader with its index. *)
Record provenance := mkProvenance {
  pv_file : UploadFile;
  pv_hex : str;
  pv_content : list Byte.byte;
  pv_path : Path;
  pv_loaded : list Document;
  pv_index : nat;
  pv_doc : Document;
}.

Section Provenance.
Variable lower : str → str.
Variable suffix_of : str → str.

(** [d] is document [pv_index] of file [n]: the four calls of file [n]
    start at position [n * 4] of the loop's calls [t], and [d] is the
    loader's document as [load_file] enriches it. *)
Definition from_file (timestamp : Z) (files : list UploadFile)
  (t : list event) (d : Document) (n : nat) (pv : provenance) : Prop :=
  let f := pv_file pv in
  let path := pv_path pv in
  let metadata :=
    file_metadata f timestamp (prefix_slice 8 (pv_hex pv))
      (length (pv_content pv)) in
  files !! n = Some f ∧
  read f = Ok (pv_content pv) ∧
  t !! (n * 4)%nat = Some (EUuid4Hex (pv_hex pv)) ∧
  t !! (n * 4 + 1)%nat
    = Some (ETempFile (suffix_of (filename f)) (pv_content pv) (Ok path)) ∧
  t !! (n * 4 + 2)%nat
    = Some (ELoad (select_loader (lower (suffix path))) path
              (Ok (pv_loaded pv))) ∧
  pv_loaded pv !! pv_index pv = Some (pv_doc pv) ∧
  d = enrich path (base_metadata lower path (Some metadata)) (pv_index pv)
        (pv_doc pv).


End Provenance.

(** Example: the upload of one Markdown file at time 17, which the
    splitter leaves in one piece, and an upload of the same file whose
    loader raises.  [Path(name).suffix] is given for names that end in
    ".md", and [lower] for strings without capitals. *)
Definition md_suffix (name : str) : str := lit ".md".
Definition same_case (s : str) : str := s.
Definition notes_file : UploadFile :=
  {| filename := lit "notes.md";
     read := Ok [Byte.x23; Byte.x20; Byte.x68; Byte.x69] |}.
Definition notes_path : Path :=
  {| name := lit "tmpab12.md"; suffix := lit ".md" |}.
Definition notes_hex : str := lit "0123abcd4567ef890123abcd4567ef89".
Definition notes_loaded : list Document :=
  [ {| page_content := lit "hi";
       metadata := {[ k_source := PStr (lit "/tmp/tmpab12.md") ]} |} ].
Definition notes_docs : list Document :=
  imap (enrich notes_path
          (base_metadata same_case notes_path
             (Some (file_metadata notes_file 17 (lit "0123abcd") 4))))
    notes_loaded.
Definition notes_calls : list event :=
  [ ETime 17; EUuid4Hex notes_hex;
    ETempFile (lit ".md") [Byte.x23; Byte.x20; Byte.x68; Byte.x69]
      (Ok notes_path);
    ELoad UnstructuredMarkdownLoader notes_path (Ok notes_loaded);
    EUnlink notes_path (Ok ());
    ESplit notes_docs 1500 200 (Ok notes_docs);
    EAdd notes_docs (Ok [lit "id1"]) ].
Definition broken_calls : list event :=
  [ ETime 17; EUuid4Hex notes_hex;
    ETempFile (lit ".md") [Byte.x23; Byte.x20; Byte.x68; Byte.x69]
      (Ok notes_path);
    ELoad UnstructuredMarkdownLoader notes_path
      (Raise (Exception (lit "cannot parse")));
    EUnlink notes_path (Ok ()) ].

End UploadSpec.

(** * Properties *)

(** ** The primitives on examples *)

Module Checks.
Import Citations Main.

Example split_keeps_empty_pieces :
  split 44%N (lit "a,,b ") = [lit "a"; []; lit "b "].
Proof. reflexivity. Qed.

Example split_of_empty : split 44%N [] = [[]].
Proof. reflexivity. Qed.

Example strip_both_ends :
  strip ([9; 32]%N ++ lit "a b" ++ [32; 10]%N) = lit "a b".
Proof. reflexivity. Qed.

Example to_str_negative : to_str (PInt (-120)) = lit "-120".
Proof. reflexivity. Qed.

Example last_slice_short : last_slice 6 [1; 2; 3] = [1; 2; 3].
Proof. reflexivity. Qed.

Example last_slice_long :
  last_slice 6 [1; 2; 3; 4; 5; 6; 7; 8] = [3; 4; 5; 6; 7; 8].
Proof. reflexivity. Qed.

Example int_or_values :
  int_or None 6 = 6 ∧ int_or (Some 0) 6 = 6 ∧ int_or (Some 3) 6 = 3 ∧
  int_or (Some (-1)) 6 = -1.
Proof. repeat split. Qed.

Example snippet_of_long :
  snippet_of (replicate 300 97%N) = replicate 240 97%N ++ [8230%N].
Proof. vm_compute. reflexivity. Qed.

Example snippet_of_limit :
  snippet_of (replicate 240 97%N) = replicate 240 97%N.
Proof. vm_compute. reflexivity. Qed.

Example parse_documents_values :
  parse_documents (Some (lit " a.pdf , ,b.txt")) =
    Some [lit "a.pdf"; lit "b.txt"] ∧
  parse_documents (Some (lit " , ")) = Some [] ∧
  parse_documents (Some (lit "  ")) = None ∧
  parse_documents (Some []) = None ∧
  parse_documents None = None.
Proof. repeat split. Qed.

End Checks.

(** ** Citation building *)

Module CitationProps.
Import Citations CitationSpec.

Section FirstSeen.
Context {A : Type} `{EqDecision A}.
Implicit Types l : list A.

Lemma elem_of_first_seen l x : x ∈ first_seen l ↔ x ∈ l.
Proof.
  induction l as [|a l IH]; simpl; [done|].
  rewrite !elem_of_cons, list_elem_of_filter, IH.
  destruct (decide (x = a)); tauto.
Qed.

Lemma NoDup_first_seen l : NoDup (first_seen l).
Proof.
  induction l as [|a l IH]; simpl; [constructor|].
  constructor; [|by apply NoDup_filter].
  rewrite list_elem_of_filter. tauto.
Qed.

Lemma first_seen_snoc l x :
  first_seen (l ++ [x]) =
    first_seen l ++ (if decide (x ∈ l) then [] else [x]).
Proof.
  induction l as [|a l IH].
  - simpl. destruct (decide (x ∈ [])) as [Hin|]; [|done].
    by apply not_elem_of_nil in Hin.
  - cbn [app first_seen]. rewrite IH, filter_app. f_equal. f_equal.
    destruct (decide (x ∈ l)) as [Hin|Hin],
             (decide (x ∈ a :: l)) as [Hin'|Hin']; try done.
    + exfalso. apply Hin'. by apply list_elem_of_further.
    + apply elem_of_cons in Hin' as [->|?]; [|done].
      by rewrite filter_cons_False by tauto.
    + rewrite filter_cons_True; [done|].
      intros ->. apply Hin', list_elem_of_here.
Qed.
End FirstSeen.

Section OrderedDictFacts.
Context {V : Type}.
Implicit Types d : list (str * V).

Lemma od_get_None k d : k ∉ d.*1 → od_get k d = None.
Proof.
  induction d as [|[k' v'] d IH]; simpl; [done|].
  rewrite not_elem_of_cons. intros [Hne Hnin].
  by rewrite decide_False, IH.
Qed.

Lemma od_set_new k v d : k ∉ d.*1 → od_set k v d = d ++ [(k, v)].
Proof.
  induction d as [|[k' v'] d IH]; simpl; [done|].
  rewrite not_elem_of_cons. intros [Hne Hnin].
  by rewrite decide_False, IH.
Qed.

Lemma od_get_first k v d1 d2 :
  k ∉ d1.*1 → od_get k (d1 ++ (k, v) :: d2) = Some v.
Proof.
  induction d1 as [|[k' v'] d1 IH]; simpl.
  - intros _. by rewrite decide_True.
  - rewrite not_elem_of_cons. intros [Hne Hnin].
    by rewrite decide_False, IH.
Qed.

Lemma od_set_first k v v' d1 d2 :
  k ∉ d1.*1 → od_set k v' (d1 ++ (k, v) :: d2) = d1 ++ (k, v') :: d2.
Proof.
  induction d1 as [|[k0 v0] d1 IH]; simpl.
  - intros _. by rewrite decide_True.
  - rewrite not_elem_of_cons. intros [Hne Hnin].
    by rewrite decide_False, IH.
Qed.
End OrderedDictFacts.

Section Scan.
Implicit Types (d w : Document) (docs ws : list Document).

Lemma first_longest_singleton d : first_longest d [d].
Proof.
  exists 0%nat. split; [done|].
  intros [|j] d' Hj; simplify_eq/=; split; lia.
Qed.

(** A later chunk that is not longer leaves the winner in place. *)
Lemma first_longest_keep w l d :
  first_longest w l →
  (length (page_content d) ≤ length (page_content w))%nat →
  first_longest w (l ++ [d]).
Proof.
  intros (i & Hi & Hmax) Hle. exists i. split.
  { by apply lookup_app_l_Some. }
  intros j d' Hj. apply lookup_app_Some in Hj as [Hj|[Hlen Hj]].
  - by apply Hmax.
  - apply list_lookup_singleton_Some in Hj as [_ <-].
    apply lookup_lt_Some in Hi. split; lia.
Qed.

(** A later chunk that is strictly longer becomes the winner. *)
Lemma first_longest_replace w l d :
  first_longest w l →
  (length (page_content w) < length (page_content d))%nat →
  first_longest d (l ++ [d]).
Proof.
  intros (i & Hi & Hmax) Hlt. exists (length l). split.
  { rewrite lookup_app_r by lia. by rewrite Nat.sub_diag. }
  intros j d' Hj. apply lookup_app_Some in Hj as [Hj|[Hlen Hj]].
  - destruct (Hmax _ _ Hj) as [Hle _]. split; lia.
  - apply list_lookup_singleton_Some in Hj as [Hz <-]. split; lia.
Qed.

Lemma candidates_snoc k docs d :
  candidates k (docs ++ [d]) =
    candidates k docs ++
      (if decide (has_source d = true ∧ key_of d = k) then [d] else []).
Proof.
  unfold candidates. rewrite filter_app, filter_app. f_equal.
  rewrite (filter_cons _ d []), filter_nil.
  destruct (decide (has_source d = true)) as [Hs|Hs].
  - rewrite (filter_cons _ d []), filter_nil.
    destruct (decide (key_of d = k)) as [Hk|Hk].
    + by rewrite decide_True by done.
    + by rewrite decide_False by tauto.
  - rewrite filter_nil. by rewrite decide_False by tauto.
Qed.

Lemma candidates_keys k docs :
  candidates k docs = [] ↔
  k ∉ key_of <$> filter (λ d, has_source d = true) docs.
Proof.
  unfold candidates. split.
  - intros Hnil Hin. apply list_elem_of_fmap in Hin as (d & -> & Hd).
    assert (d ∈ filter (λ d', key_of d' = key_of d)
                  (filter (λ d', has_source d' = true) docs)) as Hd'.
    { by apply list_elem_of_filter. }
    rewrite Hnil in Hd'. by apply not_elem_of_nil in Hd'.
  - intros Hnin.
    destruct (filter (λ d, key_of d = k) _) as [|d l] eqn:Hf; [done|].
    exfalso. assert (d ∈ d :: l) as Hd by apply list_elem_of_here.
    rewrite <- Hf in Hd. apply list_elem_of_filter in Hd as [Hk Hd].
    apply Hnin, list_elem_of_fmap. by exists d.
Qed.

Lemma stored_keys ws : (stored <$> ws).*1 = key_of <$> ws.
Proof. by rewrite <- list_fmap_compose. Qed.

Lemma candidates_snoc_other k docs d :
  key_of d ≠ k → candidates k (docs ++ [d]) = candidates k docs.
Proof.
  intros Hk. rewrite candidates_snoc, decide_False by tauto.
  apply app_nil_r.
Qed.

(** The scan's invariant: the dictionary holds, in first-seen order of the
    keys, what is stored for the first longest candidate of each key. *)
Lemma scan_winners docs :
  ∃ ws,
    foldl visit [] docs = stored <$> ws ∧
    key_of <$> ws =
      first_seen (key_of <$> filter (λ d, has_source d = true) docs) ∧
    Forall (λ w, first_longest w (candidates (key_of w) docs)) ws.
Proof.
  induction docs as [|d docs IH] using rev_ind.
  { exists []. repeat split; constructor. }
  destruct IH as (ws & Hscan & Hkeys & Hwin).
  assert (NoDup (key_of <$> ws)) as Hnd.
  { rewrite Hkeys. apply NoDup_first_seen. }
  rewrite foldl_snoc, Hscan, filter_app, fmap_app, (filter_cons _ d []),
    filter_nil.
  unfold visit. fold (source_of d). fold (has_source d). fold (key_of d).
  destruct (has_source d) eqn:Hs; simpl.
  2:{ exists ws. rewrite app_nil_r. repeat split; [done|].
      eapply Forall_impl; [exact Hwin|]. intros w Hw. simpl in Hw.
      rewrite candidates_snoc, decide_False, app_nil_r; [done|].
      intros [? _]. congruence. }
  rewrite first_seen_snoc.
  destruct (decide (key_of d ∈ key_of <$> ws)) as [Hin|Hnin].
  - (* the key is already present *)
    apply list_elem_of_fmap in Hin as (w & Hkw & Hw).
    apply list_elem_of_split in Hw as (ws1 & ws2 & ->).
    rewrite fmap_app, fmap_cons in Hnd.
    apply NoDup_app in Hnd as (_ & Hnd1 & Hnd2).
    apply NoDup_cons in Hnd2 as [Hnd2 _].
    assert (key_of d ∉ (stored <$> ws1).*1) as Hnin1.
    { rewrite stored_keys, Hkw. intros Hin.
      by apply (Hnd1 _ Hin), list_elem_of_here. }
    apply Forall_app in Hwin as [Hwin1 Hwin2].
    apply Forall_cons in Hwin2 as [Hwinw Hwin2].
    rewrite decide_True
      by (rewrite <- elem_of_first_seen, <- Hkeys, fmap_app, fmap_cons,
            elem_of_app, elem_of_cons; tauto).
    rewrite app_nil_r, fmap_app, fmap_cons.
    change (stored w) with (key_of w, entry_of (source_of w) w).
    rewrite <- Hkw, od_get_first, od_set_first by done.
    cbn [e_content entry_of].
    assert (∀ w', w' ∈ ws1 ++ ws2 → key_of w' ≠ key_of d) as Hother.
    { intros w' Hw' Heq. rewrite Hkw in Heq.
      apply elem_of_app in Hw' as [Hw'|Hw'].
      - apply (Hnd1 (key_of w')); [by apply list_elem_of_fmap_2|].
        rewrite Heq. apply list_elem_of_here.
      - apply Hnd2. rewrite <- Heq. by apply list_elem_of_fmap_2. }
    assert (Forall (λ w', first_longest w'
              (candidates (key_of w') (docs ++ [d]))) (ws1 ++ ws2)) as Hrest.
    { apply Forall_forall. intros w' Hw'.
      rewrite candidates_snoc_other by (symmetry; intros ?; by eapply Hother).
      apply elem_of_app in Hw' as [Hw'|Hw'].
      - by eapply Forall_forall in Hwin1.
      - by eapply Forall_forall in Hwin2. }
    apply Forall_app in Hrest as [Hrest1 Hrest2].
    destruct (decide (length (page_content w) < length (page_content d))%nat)
      as [Hlt|Hge].
    + exists (ws1 ++ d :: ws2).
      rewrite !fmap_app, !fmap_cons. split; [done|]. split.
      { rewrite <- Hkeys, fmap_app, fmap_cons. by rewrite Hkw. }
      apply Forall_app. split; [done|]. apply Forall_cons. split; [|done].
      rewrite candidates_snoc, decide_True by done.
      eapply first_longest_replace; [|exact Hlt]. by rewrite Hkw.
    + exists (ws1 ++ w :: ws2).
      rewrite !fmap_app, !fmap_cons. split; [by unfold stored; rewrite Hkw|].
      split.
      { by rewrite <- Hkeys, fmap_app, fmap_cons. }
      apply Forall_app. split; [done|]. apply Forall_cons. split; [|done].
      rewrite <- Hkw, candidates_snoc, decide_True by done.
      apply first_longest_keep; [by rewrite Hkw|lia].
  - (* a new key *)
    exists (ws ++ [d]).
    rewrite od_get_None, od_set_new by by rewrite stored_keys.
    rewrite decide_False
      by (rewrite <- elem_of_first_seen, <- Hkeys; done).
    rewrite !fmap_app. split; [done|]. split; [by rewrite Hkeys|].
    apply Forall_app. split.
    + eapply Forall_impl; [exact Hwin|]. intros w Hw. simpl in Hw.
      destruct (decide (key_of d = key_of w)) as [Heq|Hne].
      * exfalso. apply Hnin. rewrite Heq.
        destruct Hw as (i & Hi & _).
        apply list_elem_of_lookup_2, list_elem_of_filter in Hi as [_ Hi].
        rewrite Hkeys, elem_of_first_seen.
        by apply list_elem_of_fmap_2.
      * by rewrite candidates_snoc_other.
    + apply Forall_singleton.
      rewrite candidates_snoc, decide_True by done.
      assert (candidates (key_of d) docs = []) as ->.
      { apply candidates_keys. by rewrite <- elem_of_first_seen, <- Hkeys. }
      apply first_longest_singleton.
Qed.

End Scan.

(** *** Keys and (source, page) pairs of plain chunks *)

Section PlainKeys.

Lemma lit_inj s1 s2 : lit s1 = lit s2 → s1 = s2.
Proof.
  unfold lit. intros Heq.
  apply (f_equal (fmap ascii_of_N)) in Heq.
  rewrite <- !list_fmap_compose in Heq.
  assert (∀ l : list ascii, (ascii_of_N ∘ N_of_ascii) <$> l = l) as Hid.
  { intros l. induction l as [|a l IH]; [done|].
    rewrite fmap_cons, IH. simpl. by rewrite ascii_N_embedding. }
  rewrite !Hid in Heq.
  apply (f_equal string_of_list_ascii) in Heq.
  by rewrite !string_of_list_ascii_of_string in Heq.
Qed.

Lemma pretty_N_char_numeric x : numeric (N_of_ascii (pretty_N_char x)).
Proof.
  unfold numeric, pretty_N_char.
  repeat case_match; vm_compute; right; split; discriminate.
Qed.

Lemma pretty_N_go_numeric x s :
  Forall numeric (lit s) → Forall numeric (lit (pretty_N_go x s)).
Proof.
  revert s. induction (N.lt_wf_0 x) as [x _ IH]. intros s Hs.
  assert (x = 0 ∨ 0 < x)%N as [->|Hpos] by lia.
  - by rewrite pretty_N_go_0.
  - rewrite pretty_N_go_step by done. apply IH.
    { by apply N.div_lt. }
    constructor; [apply pretty_N_char_numeric|done].
Qed.

(** The text of an integer has digits and a minus sign only. *)
Lemma pretty_Z_numeric (z : Z) : Forall numeric (lit (pretty z)).
Proof.
  assert (∀ p : positive, Forall numeric (lit (pretty (N.pos p)))) as Hpos.
  { intros p. unfold pretty, pretty_N.
    rewrite decide_False by done.
    apply pretty_N_go_numeric. constructor. }
  destruct z as [|p|p]; unfold pretty, pretty_Z.
  - change (Forall numeric [48%N]). apply Forall_singleton.
    unfold numeric. lia.
  - apply Hpos.
  - change (Forall numeric (45%N :: lit (pretty (N.pos p)))).
    constructor; [by left|]. apply Hpos.
Qed.

(** The text after the last colon of a key determines what is before it. *)
Lemma app_colon_inj (s s' t t' : str) :
  58%N ∉ t → 58%N ∉ t' →
  s ++ 58%N :: t = s' ++ 58%N :: t' → s = s' ∧ t = t'.
Proof.
  intros Ht Ht'. revert s'.
  induction s as [|a s IH]; intros [|a' s'] Heq; simpl in Heq.
  - by injection Heq as ->.
  - injection Heq as <- ->. exfalso.
    apply Ht, elem_of_app. right. apply list_elem_of_here.
  - injection Heq as -> <-. exfalso.
    apply Ht', elem_of_app. right. apply list_elem_of_here.
  - injection Heq as -> Heq. by destruct (IH _ Heq) as [-> ->].
Qed.

Lemma numeric_no_colon t : Forall numeric t → 58%N ∉ t.
Proof.
  intros Hnum Hin. eapply Forall_forall in Hnum; [|exact Hin].
  unfold numeric in Hnum. lia.
Qed.

Lemma numeric_not_none t : Forall numeric t → t ≠ lit "none".
Proof.
  intros Hnum ->. apply Forall_cons in Hnum as [Hn _].
  unfold numeric in Hn. vm_compute in Hn. destruct Hn as [?|[? ?]]; done.
Qed.

(** For plain chunks the key and the (source, page) pair say the same. *)
Lemma plain_key_pair d d' :
  plain d → plain d' → key_of d = key_of d' ↔ pair_of d = pair_of d'.
Proof.
  intros [[s Hs] Hp] [[s' Hs'] Hp'].
  unfold key_of, pair_of, source_key, source_of, get.
  rewrite Hs, Hs'. cbn [from_option id to_str].
  assert (∀ z : Z, 58%N ∉ lit (pretty z)) as Hnc.
  { intros z. apply numeric_no_colon, pretty_Z_numeric. }
  assert (58%N ∉ lit "none") as Hnone.
  { intros Hin. vm_compute in Hin.
    repeat (apply elem_of_cons in Hin as [Hin|Hin]; [done|]).
    by apply not_elem_of_nil in Hin. }
  change (lit ":" ++ ?t) with (58%N :: t).
  destruct Hp as [Hp|[z Hp]], Hp' as [Hp'|[z' Hp']];
    rewrite Hp, Hp'; cbn [from_option id to_str]; split; intros Heq.
  - apply app_colon_inj in Heq as [-> _]; done.
  - by simplify_eq.
  - apply app_colon_inj in Heq as [_ Heq]; [|done..].
    symmetry in Heq. by apply numeric_not_none in Heq;
      [|apply pretty_Z_numeric].
  - by simplify_eq.
  - apply app_colon_inj in Heq as [_ Heq]; [|done..].
    by apply numeric_not_none in Heq; [|apply pretty_Z_numeric].
  - by simplify_eq.
  - apply app_colon_inj in Heq as [-> Heq]; [|done..].
    apply lit_inj, (inj pretty) in Heq. by subst.
  - by simplify_eq.
Qed.

End PlainKeys.

Section Firsts.
Context {A K P : Type} `{EqDecision K} `{EqDecision P}.
Implicit Types (l : list A) (f : A → K) (g : A → P).

Lemma filter_fmap_value f (k : K) l :
  filter (λ y, y ≠ k) (f <$> l) = f <$> filter (λ x, f x ≠ k) l.
Proof.
  induction l as [|x l IH]; [done|].
  rewrite fmap_cons, !filter_cons, IH. by destruct (decide (f x ≠ k)).
Qed.

Lemma first_seen_fmap f l : first_seen (f <$> l) = f <$> firsts f l.
Proof.
  induction l as [|x l IH]; [done|].
  cbn [fmap list_fmap first_seen firsts].
  change (list_fmap A K f l) with (f <$> l).
  by rewrite IH, filter_fmap_value.
Qed.

Lemma elem_of_firsts f l x : x ∈ firsts f l → x ∈ l.
Proof.
  induction l as [|a l IH]; simpl; [done|].
  rewrite !elem_of_cons, list_elem_of_filter. tauto.
Qed.

Lemma filter_agree (Q1 Q2 : A → Prop) `{∀ x, Decision (Q1 x)}
  `{∀ x, Decision (Q2 x)} l :
  (∀ x, x ∈ l → Q1 x ↔ Q2 x) → filter Q1 l = filter Q2 l.
Proof.
  induction l as [|x l IH]; intros Hagree; [done|].
  rewrite !filter_cons, IH
    by (intros y Hy; apply Hagree; by apply list_elem_of_further).
  pose proof (Hagree x (list_elem_of_here _ _)).
  destruct (decide (Q1 x)), (decide (Q2 x)); tauto || done.
Qed.

(** Two functions that identify the same elements of [l] have the same
    first occurrences. *)
Lemma firsts_agree f g l :
  (∀ x y, x ∈ l → y ∈ l → f x = f y ↔ g x = g y) →
  firsts f l = firsts g l.
Proof.
  induction l as [|a l IH]; intros Hagree; [done|].
  simpl. f_equal. rewrite <- IH.
  2:{ intros x y Hx Hy. apply Hagree; by apply list_elem_of_further. }
  apply filter_agree. intros y Hy. apply elem_of_firsts in Hy.
  pose proof (Hagree y a (list_elem_of_further _ _ _ Hy)
                (list_elem_of_here _ _)). tauto.
Qed.

Lemma fmap_eq_transfer f g (Q : A → Prop) l1 l2 :
  (∀ x y, Q x → Q y → f x = f y → g x = g y) →
  Forall Q l1 → Forall Q l2 →
  f <$> l1 = f <$> l2 → g <$> l1 = g <$> l2.
Proof.
  intros Hfg Hl1. revert l2.
  induction Hl1 as [|x l1 Hx _ IH]; intros [|y l2] Hl2 Heq;
    try done.
  apply Forall_cons in Hl2 as [Hy Hl2].
  rewrite !fmap_cons in *. injection Heq as Hxy Heq.
  f_equal; [by apply Hfg|by apply IH].
Qed.

End Firsts.

(** A chunk without a truthy source leaves the dictionary as it is. *)
Lemma scan_skips docs acc :
  foldl visit acc docs =
    foldl visit acc (filter (λ d, has_source d = true) docs).
Proof.
  revert acc. induction docs as [|d docs IH]; intros acc; [done|].
  rewrite filter_cons. destruct (decide (has_source d = true)) as [Hs|Hs].
  - cbn [foldl]. apply IH.
  - cbn [foldl]. rewrite <- IH. f_equal.
    unfold visit. fold (source_of d). fold (has_source d).
    by destruct (has_source d).
Qed.

Lemma no_source_skipped d :
  metadata d !! k_source = None → has_source d = false.
Proof.
  intros Hnone. unfold has_source, source_of, get. by rewrite Hnone.
Qed.

(** The citations are those of the winners, in the dictionary's order. *)
Lemma build_citations_winners docs :
  ∃ winners,
    build_citations docs = citation_of <$> winners ∧
    key_of <$> winners =
      first_seen (key_of <$> filter (λ d, has_source d = true) docs) ∧
    Forall (λ w, first_longest w (candidates (key_of w) docs)) winners.
Proof.
  destruct (scan_winners docs) as (ws & Hscan & Hkeys & Hwin).
  exists ws. split; [|done].
  unfold build_citations, od_values. rewrite Hscan.
  rewrite <- !list_fmap_compose. done.
Qed.


Lemma first_longest_elem w l : first_longest w l → w ∈ l.
Proof. intros (i & Hi & _). by eapply list_elem_of_lookup_2. Qed.

(** The winners are scanned chunks with a truthy source. *)
Lemma sourced_winners docs :
  ∃ winners,
    build_citations docs = citation_of <$> winners ∧
    key_of <$> winners =
      first_seen (key_of <$> filter (λ d, has_source d = true) docs) ∧
    Forall (λ w, first_longest w (candidates (key_of w) docs)) winners ∧
    Forall (λ w, w ∈ filter (λ d, has_source d = true) docs) winners.
Proof.
  destruct (build_citations_winners docs) as (ws & Hout & Hkeys & Hwin).
  exists ws. repeat split; try done.
  eapply Forall_impl; [exact Hwin|]. intros w Hw. simpl in Hw.
  apply first_longest_elem in Hw. unfold candidates in Hw.
  by apply list_elem_of_filter in Hw as [_ Hw].
Qed.

(** ** C3: one citation per key, first seen first, longest wins *)

(** C3, as stated, fails.  The chunks [a_page_text], [b_no_page] and
    [a_page_int] have three distinct (source, page) pairs, first seen in
    this order, and each pair belongs to one chunk only.  Yet there are only
    two citations: the pair of [a_page_text] has none although it has no
    competitor, and the citation of the pair seen last comes before the
    citation of the pair seen second. *)
Lemma build_citations_pairs_counterexample :
  let docs := [a_page_text; b_no_page; a_page_int] in
  NoDup (pair_of <$> docs) ∧
  Forall (λ d, has_source d = true) docs ∧
  build_citations docs = [citation_of a_page_int; citation_of b_no_page] ∧
  citation_pair <$> build_citations docs ≠ first_seen (pair_of <$> docs) ∧
  citation_pair <$> build_citations docs =
    [pair_of a_page_int; pair_of b_no_page].
Proof.
  cbv zeta. split; [|split; [|split; [|split]]].
  - apply (bool_decide_unpack _). vm_compute. exact I.
  - repeat constructor.
  - vm_compute. reflexivity.
  - vm_compute. discriminate.
  - vm_compute. reflexivity.
Qed.

(** C3, amended: [build_citations] returns one citation per distinct key
    [f"{source}:{page}"] (the page read as 'none' when the metadata has no
    page) of the chunks whose source is truthy, in first-seen order of the
    keys; a chunk without a source is skipped; the citation of a key is
    built from the longest chunk with that key, the first one among equally
    long chunks. *)
Theorem build_citations_by_key (docs : list Document) :
  let sourced := filter (λ d, has_source d = true) docs in
  (∀ d, metadata d !! k_source = None → has_source d = false) ∧
  build_citations docs = build_citations sourced ∧
  ∃ winners,
    build_citations docs = citation_of <$> winners ∧
    NoDup (key_of <$> winners) ∧
    key_of <$> winners = first_seen (key_of <$> sourced) ∧
    Forall (λ w, first_longest w (filter (λ d, key_of d = key_of w) sourced))
      winners.
Proof.
  cbv zeta. split; [apply no_source_skipped|]. split.
  { unfold build_citations. by rewrite scan_skips. }
  destruct (build_citations_winners docs) as (ws & Hout & Hkeys & Hwin).
  exists ws. repeat split; try done.
  rewrite Hkeys. apply NoDup_first_seen.
Qed.

(** X1: on plain chunks the statement of C3 holds for (source, page)
    pairs as it is written: one citation per distinct pair of the chunks
    with a truthy source, in first-seen order of the pairs, each built from
    the longest chunk of its pair, the first one among equally long
    chunks. *)
Theorem build_citations_plain_pairs (docs : list Document) :
  Forall plain docs →
  let sourced := filter (λ d, has_source d = true) docs in
  ∃ winners,
    build_citations docs = citation_of <$> winners ∧
    citation_pair <$> build_citations docs = first_seen (pair_of <$> sourced) ∧
    NoDup (citation_pair <$> build_citations docs) ∧
    Forall (λ w, first_longest w
                   (filter (λ d, pair_of d = pair_of w) sourced)) winners.
Proof.
  intros Hplain. cbv zeta.
  destruct (sourced_winners docs)
    as (ws & Hout & Hkeys & Hwin & Hin).
  assert (Forall plain (filter (λ d, has_source d = true) docs)) as Hps.
  { apply Forall_forall. intros d Hd.
    apply list_elem_of_filter in Hd as [_ Hd].
    eapply Forall_forall in Hplain; [exact Hplain|exact Hd]. }
  assert (Forall plain ws) as Hpw.
  { apply Forall_forall. intros w Hw.
    eapply Forall_forall in Hin; [|exact Hw].
    eapply Forall_forall in Hps; [exact Hps|exact Hin]. }
  assert (citation_pair <$> build_citations docs = pair_of <$> ws) as Hpairs.
  { rewrite Hout, <- list_fmap_compose. done. }
  assert (pair_of <$> ws =
          first_seen (pair_of <$> filter (λ d, has_source d = true) docs))
    as Horder.
  { rewrite first_seen_fmap, first_seen_fmap in *.
    rewrite <- (firsts_agree key_of pair_of).
    2:{ intros x y Hx Hy. apply plain_key_pair.
        - eapply Forall_forall in Hps; [exact Hps|exact Hx].
        - eapply Forall_forall in Hps; [exact Hps|exact Hy]. }
    eapply (fmap_eq_transfer key_of pair_of plain); [|done| |done].
    - intros x y Hx Hy. by apply plain_key_pair.
    - apply Forall_forall. intros x Hx. apply elem_of_firsts in Hx.
      eapply Forall_forall in Hps; [exact Hps|exact Hx]. }
  exists ws. split; [done|]. split; [by rewrite Hpairs|]. split.
  { rewrite Hpairs, Horder. apply NoDup_first_seen. }
  apply Forall_forall. intros w Hw.
  eapply Forall_forall in Hwin as Hw'; [|exact Hw]. simpl in Hw'.
  unfold candidates in Hw'.
  rewrite (filter_agree (λ d, pair_of d = pair_of w)
             (λ d, key_of d = key_of w)); [done|].
  intros d Hd. symmetry. apply plain_key_pair.
  - eapply Forall_forall in Hps; [exact Hps|exact Hd].
  - eapply Forall_forall in Hpw; [exact Hpw|exact Hw].
Qed.

(** X1 on three plain chunks, two of them of the same page. *)
Lemma build_citations_plain_pairs_witness :
  let docs := [a_page_int_short; b_no_page; a_page_int] in
  Forall plain docs ∧
  ∃ winners,
    build_citations docs = citation_of <$> winners ∧
    citation_pair <$> build_citations docs =
      first_seen (pair_of <$> filter (λ d, has_source d = true) docs) ∧
    NoDup (citation_pair <$> build_citations docs) ∧
    Forall (λ w, first_longest w
                   (filter (λ d, pair_of d = pair_of w)
                      (filter (λ d, has_source d = true) docs))) winners.
Proof.
  cbv zeta.
  assert (Forall plain [a_page_int_short; b_no_page; a_page_int]) as Hplain.
  { repeat apply Forall_cons_2; [..|apply Forall_nil_2];
      (split; [eexists; reflexivity|]);
      first [left; reflexivity | right; eexists; reflexivity]. }
  split; [exact Hplain|].
  exact (build_citations_plain_pairs
           [a_page_int_short; b_no_page; a_page_int] Hplain).
Defined.

(** ** C8: the snippet *)

(** C8: the snippet of every citation is computed from the raw content of
    the chunk that won the citation's key: the content itself when it has
    at most 240 characters, its first 240 characters followed by the
    ellipsis character otherwise. *)
Theorem build_citations_snippet (docs : list Document) :
  ∃ winners,
    Forall (λ w, first_longest w (candidates (key_of w) docs)) winners ∧
    Forall2 (λ c w,
        let content := page_content w in
        c = citation_of w ∧
        ((length content ≤ 240)%nat → c_snippet c = content) ∧
        ((240 < length content)%nat →
           c_snippet c = take 240 content ++ [8230%N] ∧
           length (c_snippet c) = 241%nat))
      (build_citations docs) winners.
Proof.
  destruct (build_citations_winners docs) as (ws & Hout & _ & Hwin).
  exists ws. split; [done|]. rewrite Hout.
  apply Forall2_fmap_l, Forall_Forall2_diag, Forall_forall.
  intros w _. cbv zeta. split; [done|].
  cbn [c_snippet citation_of del_content e_snippet entry_of].
  unfold snippet_of, prefix_slice, ellipsis.
  split; intros Hlen.
  - by rewrite decide_False by lia.
  - rewrite decide_True by lia. split; [done|].
    rewrite length_app, length_take. cbn [length]. lia.
Qed.

End CitationProps.

(** ** Loading: the metadata of a text unit *)

Module LoaderProps.
Import Loaders LoaderSpec.

Lemma keys_distinct :
  k_source ≠ k_chunk_id ∧ k_source ≠ k_file_type ∧ k_source ≠ k_filename ∧
  k_source ≠ k_original_filename ∧ k_chunk_id ≠ k_file_type ∧
  k_chunk_id ≠ k_filename ∧ k_chunk_id ≠ k_original_filename ∧
  k_file_type ≠ k_filename ∧ k_file_type ≠ k_original_filename ∧
  k_filename ≠ k_original_filename.
Proof. repeat split; vm_compute; discriminate. Qed.

Section Merge.
Variable lower : str → str.
Variable load : loader → Path → result (list Document).

Lemma enrich_lookup path caller i d key :
  metadata (enrich path (base_metadata lower path caller) i d) !! key =
    merged_lookup lower path caller (metadata d) i key.
Proof.
  destruct keys_distinct as (? & ? & ? & ? & ? & ? & ? & ? & ? & ?).
  unfold enrich, merged_lookup, base_metadata. cbn [metadata].
  set (c := default ∅ caller).
  set (base := <[k_file_type:=_]> (<[k_filename:=_]> c)).
  set (enriched := <[k_chunk_id:=_]> (metadata d ∪ base)).
  assert (enriched !! k_original_filename
          = (metadata d ∪ c) !! k_original_filename) as ->.
  { unfold enriched, base. rewrite lookup_insert_ne by done.
    rewrite !lookup_union. by rewrite !lookup_insert_ne by done. }
  set (source := default (PStr (name path)) _).
  assert (match (metadata d ∪ c) !! k_original_filename with
          | Some original => <[k_source:=original]> enriched
          | None => <[k_source:=PStr (name path)]> enriched
          end = <[k_source:=source]> enriched) as ->.
  { unfold source. by destruct (_ !! k_original_filename). }
  destruct (decide (key = k_source)) as [->|Hsrc].
  { by rewrite lookup_insert_eq. }
  rewrite lookup_insert_ne by done. unfold enriched.
  destruct (decide (key = k_chunk_id)) as [->|Hcid].
  { by rewrite lookup_insert_eq. }
  rewrite lookup_insert_ne by done. rewrite lookup_union.
  destruct (metadata d !! key) as [v|] eqn:Hd.
  { by destruct (base !! key). }
  rewrite (left_id None _). unfold base.
  destruct (decide (key = k_file_type)) as [->|Hft].
  { by rewrite lookup_insert_eq. }
  rewrite lookup_insert_ne by done.
  destruct (decide (key = k_filename)) as [->|Hfn].
  { by rewrite lookup_insert_eq. }
  by rewrite lookup_insert_ne.
Qed.

End Merge.

(** ** C4: precedence of the merged metadata *)

(** C4, as stated, fails: a loader's own [filename] is kept, it is not
    replaced by the computed one.  The second unit of the example keeps
    "inner.md", where the stated precedence gives the file's base name. *)
Lemma load_file_precedence_counterexample :
  let lower := λ s : str, s in
  let caller := Some upload_metadata in
  ∃ u0 u1 loaded,
    titled_loader (select_loader (lower (suffix tmp_path))) tmp_path
      = Ok [u0; u1] ∧
    load_file lower titled_loader tmp_path caller = Ok loaded ∧
    (metadata <$> loaded !! 1%nat) ≠
      Some (stated_metadata lower tmp_path caller (metadata u1) 1) ∧
    (loaded !! 1%nat ≫= λ u, metadata u !! k_filename)
      = Some (PStr (lit "inner.md")) ∧
    stated_metadata lower tmp_path caller (metadata u1) 1 !! k_filename
      = Some (PStr (name tmp_path)).
Proof.
  cbv zeta. eexists _, _, _. split; [reflexivity|]. split; [reflexivity|].
  split; [|split; vm_compute; reflexivity].
  intros Heq. apply (f_equal (λ o, o ≫= λ m : dict, m !! k_filename)) in Heq.
  vm_compute in Heq. discriminate.
Qed.

(** C4, amended: the metadata of the unit at index [i] is merged with the
    precedence, lowest first: the caller's metadata, the computed
    [filename] and [file_type], the loader's metadata, the computed
    [chunk_id] (the index [i]) and [source]; the source is the
    [original_filename] of the merged metadata (the loader's when it has
    one, else the caller's) and the file's base name when there is none.
    When the loader's metadata has no [filename], [file_type] or
    [original_filename], this is the stated precedence. *)
Theorem load_file_metadata (lower : str → str)
  (load : loader → Path → result (list Document))
  (path : Path) (caller : option dict) (docs : list Document) :
  load (select_loader (lower (suffix path))) path = Ok docs →
  ∃ loaded,
    load_file lower load path caller = Ok loaded ∧
    length loaded = length docs ∧
    ∀ i d, docs !! i = Some d →
      ∃ u, loaded !! i = Some u ∧
        page_content u = page_content d ∧
        (∀ key, metadata u !! key =
                  merged_lookup lower path caller (metadata d) i key) ∧
        (metadata d !! k_filename = None →
         metadata d !! k_file_type = None →
         metadata d !! k_original_filename = None →
         metadata u = stated_metadata lower path caller (metadata d) i).
Proof.
  intros Hload. unfold load_file. rewrite Hload.
  eexists. split; [reflexivity|]. split; [apply length_imap|].
  intros i d Hd. eexists. split.
  { rewrite list_lookup_imap, Hd. reflexivity. }
  split; [done|]. split; [apply enrich_lookup|].
  intros Hfn Hft Horig. apply map_eq. intros key.
  rewrite enrich_lookup.
  destruct keys_distinct as (? & ? & ? & ? & ? & ? & ? & ? & ? & ?).
  unfold merged_lookup, stated_metadata.
  assert (∀ o : option value, None ∪ o = o) as Hnone by (by intros []).
  rewrite (lookup_union (metadata d) _ k_original_filename), Horig, Hnone.
  destruct (decide (key = k_source)) as [->|?].
  { by rewrite lookup_insert_eq. }
  rewrite lookup_insert_ne by done.
  destruct (decide (key = k_chunk_id)) as [->|?].
  { by rewrite lookup_insert_eq. }
  rewrite lookup_insert_ne by done.
  destruct (decide (key = k_file_type)) as [->|?].
  { by rewrite lookup_insert_eq, Hft. }
  rewrite lookup_insert_ne by done.
  destruct (decide (key = k_filename)) as [->|?].
  { by rewrite lookup_insert_eq, Hfn. }
  rewrite lookup_insert_ne by done. rewrite lookup_union.
  destruct (metadata d !! key); [|by rewrite Hnone].
  by destruct (default ∅ caller !! key).
Qed.

(** C4, amended, on the example upload. *)
Lemma load_file_metadata_witness :
  let lower := λ s : str, s in
  let docs := [ {| page_content := lit "first";
                   metadata := {[ k_source := PStr (lit "/tmp/tmpab12.md") ]} |};
                {| page_content := lit "second";
                   metadata := {[ k_source := PStr (lit "/tmp/tmpab12.md");
                                  k_filename := PStr (lit "inner.md") ]} |} ] in
  titled_loader (select_loader (lower (suffix tmp_path))) tmp_path = Ok docs ∧
  ∃ loaded,
    load_file lower titled_loader tmp_path (Some upload_metadata)
      = Ok loaded ∧
    length loaded = length docs ∧
    ∀ i d, docs !! i = Some d →
      ∃ u, loaded !! i = Some u ∧
        page_content u = page_content d ∧
        (∀ key, metadata u !! key =
                  merged_lookup lower tmp_path (Some upload_metadata)
                    (metadata d) i key) ∧
        (metadata d !! k_filename = None →
         metadata d !! k_file_type = None →
         metadata d !! k_original_filename = None →
         metadata u = stated_metadata lower tmp_path (Some upload_metadata)
                        (metadata d) i).
Proof.
  split; [reflexivity|].
  apply (load_file_metadata (λ s, s) titled_loader tmp_path
           (Some upload_metadata)).
  reflexivity.
Defined.

End LoaderProps.

(** ** Trimming and splitting *)

Module StrProps.
Import PipelineSpec.

Lemma lstrip_nil_iff s : lstrip s = [] ↔ blank s.
Proof.
  unfold blank. induction s as [|c s IH]; simpl.
  - split; [constructor|done].
  - destruct (isspace c) eqn:Hc.
    + rewrite IH. split; [by constructor|]. by inversion 1.
    + split; [done|]. inversion 1; congruence.
Qed.

(** What [lstrip] leaves is blank only when it is empty. *)
Lemma lstrip_blank s : blank (lstrip s) → lstrip s = [].
Proof.
  unfold blank. induction s as [|c s IH]; simpl; [done|].
  destruct (isspace c) eqn:Hc; [done|].
  inversion 1; congruence.
Qed.

Lemma lstrip_of_blank s : blank s → lstrip s = [].
Proof. apply lstrip_nil_iff. Qed.

Lemma blank_lstrip s : blank s → blank (lstrip s).
Proof. intros Hs. rewrite lstrip_of_blank by done. constructor. Qed.

Lemma strip_nil_iff s : strip s = [] ↔ blank s.
Proof.
  unfold strip, rstrip. split.
  - intros Hnil. apply (f_equal reverse) in Hnil.
    rewrite reverse_involutive, reverse_nil in Hnil.
    apply lstrip_nil_iff in Hnil. unfold blank in Hnil.
    rewrite Forall_reverse in Hnil.
    apply lstrip_nil_iff. by apply lstrip_blank.
  - intros Hs. by rewrite (lstrip_of_blank s Hs).
Qed.

(** A blank string has no comma, so splitting it on commas gives the
    string itself. *)
Lemma split_comma_blank s : blank s → split 44%N s = [s].
Proof.
  unfold blank. induction s as [|c s IH]; simpl; [done|].
  inversion 1 as [|? ? Hc Hs]; subst.
  destruct (c =? 44)%N eqn:Hcomma.
  - apply N.eqb_eq in Hcomma. subst c. vm_compute in Hc. discriminate.
  - by rewrite IH.
Qed.

Lemma filter_strip_fmap (l : list str) :
  strip <$> filter (λ doc, strip doc ≠ []) l =
    filter (λ entry, entry ≠ []) (strip <$> l).
Proof.
  induction l as [|x l IH]; [done|].
  rewrite fmap_cons, !filter_cons.
  destruct (decide (strip x ≠ [])); by rewrite ?fmap_cons, IH.
Qed.

End StrProps.

(** ** The chat pipeline *)

Module PipelineProps.
Import Citations CitationSpec CitationProps Chains Main PipelineSpec StrProps.


Section Facts.
Variable SYSTEM_PROMPT : str.
Variable settings : Settings.
Implicit Types (W : World) (store : SessionStore).

Lemma run_bind {A B} W (p : prog A) (f : A → prog B) :
  run W (bind p f) =
    ((run W (f (run W p).1)).1, (run W p).2 ++ (run W (f (run W p).1)).2).
Proof.
  induction p as [a|q k flt next IH|msgs next IH]; simpl.
  - by destruct (run W (f a)).
  - rewrite IH. by destruct (run W (next _)).
  - rewrite IH. by destruct (run W (next _)).
Qed.

(** The code's filter is the stated one; an empty list of names stands for
    no filter. *)
Lemma parse_documents_stated documents :
  default [] (parse_documents documents) = stated_filter documents.
Proof.
  destruct documents as [s|]; [|done]. simpl.
  destruct (decide (strip s = [])) as [Hblank|Hnb].
  - assert (bool_decide (s ≠ []) && bool_decide (strip s ≠ []) = false)
      as ->.
    { rewrite (bool_decide_eq_false_2 (strip s ≠ [])) by tauto.
      apply andb_false_r. }
    apply strip_nil_iff in Hblank as Hb.
    rewrite split_comma_blank by done. simpl.
    rewrite filter_cons, decide_False by tauto. done.
  - assert (s ≠ []) as Hne by (by intros ->).
    rewrite !bool_decide_eq_true_2 by done. simpl.
    apply filter_strip_fmap.
Qed.

Lemma retrieve_context_run W question k filter_docs :
  run W (retrieve_context question k filter_docs) =
    (similarity_search W question k (restriction (default [] filter_docs)),
     [EvSearch question k (restriction (default [] filter_docs))]).
Proof. by destruct filter_docs as [[|name names]|]. Qed.

(** One request, step by step: the search, then the session lookup and the
    prompt, then the model, then the two appends. *)
Lemma answer_question_run W store question session_id k filter_docs :
  let flt := restriction (default [] filter_docs) in
  let msg docs := prompt_of SYSTEM_PROMPT docs
                    (messages_of store session_id) question in
  run W (answer_question SYSTEM_PROMPT store question session_id k
           filter_docs) =
    match similarity_search W question k flt with
    | Raise e => ((store, Raise e), [EvSearch question k flt])
    | Ok docs =>
        match invoke W (msg docs) with
        | Raise e =>
            (((get_history store session_id).1, Raise e),
             [EvSearch question k flt; EvInvoke (msg docs)])
        | Ok content =>
            ((add_message
                (add_message (get_history store session_id).1 session_id
                   (mkMessage human question))
                session_id (mkMessage ai content),
              Ok {| answer := content;
                    citations := build_citations docs |}),
             [EvSearch question k flt; EvInvoke (msg docs)])
        end
    end.
Proof.
  cbv zeta. unfold answer_question.
  rewrite run_bind, retrieve_context_run. cbn [fst snd].
  destruct (similarity_search W question k _) as [docs|e]; [|done].
  assert ((get_history store session_id).2 = messages_of store session_id)
    as Hmsgs.
  { unfold get_history, messages_of.
    by destruct (store !! session_id). }
  destruct (get_history store session_id) as [store1 messages] eqn:Hget.
  cbn [fst snd] in *. subst messages. cbn [run]. fold (prompt_of
    SYSTEM_PROMPT docs (messages_of store session_id) question).
  by destruct (invoke W _) as [content|e].
Qed.

Lemma get_history_store store session_id :
  (get_history store session_id).1 =
    <[session_id := messages_of store session_id]> store.
Proof.
  unfold get_history, messages_of.
  destruct (store !! session_id) as [h|] eqn:Hs; simpl; [|done].
  by rewrite insert_id.
Qed.

Lemma add_message_insert store session_id h m :
  add_message (<[session_id := h]> store) session_id m =
    <[session_id := h ++ [m]]> store.
Proof.
  unfold add_message. apply map_eq. intros s.
  destruct (decide (s = session_id)) as [->|Hne].
  - by rewrite lookup_alter_eq, !lookup_insert_eq.
  - by rewrite lookup_alter_ne, !lookup_insert_ne.
Qed.

Lemma messages_of_insert_self store session_id s :
  messages_of (<[session_id := messages_of store session_id]> store) s =
    messages_of store s.
Proof.
  unfold messages_of. destruct (decide (s = session_id)) as [->|Hne].
  - by rewrite lookup_insert_eq.
  - by rewrite lookup_insert_ne.
Qed.

Lemma chat_blank W store question session_id k documents :
  blank question →
  chat SYSTEM_PROMPT settings store question session_id k documents =
    Return (store, HTTPException 400 (lit "Question cannot be empty")).
Proof.
  intros Hb. apply strip_nil_iff in Hb. unfold chat.
  rewrite (bool_decide_eq_true_2 (strip question = [])) by done.
  by rewrite orb_true_r.
Qed.

Lemma chat_run W store question session_id k documents :
  ¬ blank question →
  run W (chat SYSTEM_PROMPT settings store question session_id k documents) =
    let r := run W (answer_question SYSTEM_PROMPT store question session_id
                      (int_or k (max_context_docs settings))
                      (parse_documents documents)) in
    ((r.1.1, response_of r.1.2), r.2).
Proof.
  intros Hnb. rewrite <- strip_nil_iff in Hnb.
  assert (question ≠ []) as Hne by (by intros ->).
  unfold chat. rewrite !bool_decide_eq_false_2 by done.
  cbn [orb]. cbv zeta. rewrite run_bind.
  destruct (run W (answer_question _ _ _ _ _ _)) as [[store' outcome] evs].
  cbn [fst snd]. destruct outcome; simpl; by rewrite app_nil_r.
Qed.

(** ** C6: the history is updated after, and only after, a successful
    generation *)

(** C6: when retrieval fails nothing in the store changes; when the model
    fails no session has a message more or less than before; when the model
    returns, the question and then the answer it returned are appended to
    the session, the prompt having been built from the messages held
    before. *)
Theorem answer_question_history (W : World) (store : SessionStore)
  (question session_id : str) (k : Z) (filter_docs : option (list str)) :
  let flt := restriction (default [] filter_docs) in
  let r := run W (answer_question SYSTEM_PROMPT store question session_id k
                    filter_docs) in
  match similarity_search W question k flt with
  | Raise e => r = ((store, Raise e), [EvSearch question k flt])
  | Ok docs =>
      let msg := prompt_of SYSTEM_PROMPT docs
                   (messages_of store session_id) question in
      r.2 = [EvSearch question k flt; EvInvoke msg] ∧
      match invoke W msg with
      | Raise e =>
          r.1.2 = Raise e ∧
          ∀ s, messages_of r.1.1 s = messages_of store s
      | Ok content =>
          r.1.2 = Ok {| answer := content;
                        citations := build_citations docs |} ∧
          r.1.1 = <[session_id :=
                      messages_of store session_id ++
                        [mkMessage human question; mkMessage ai content]]>
                    store
      end
  end.
Proof.
  cbv zeta. rewrite answer_question_run. cbv zeta.
  destruct (similarity_search W question k _) as [docs|e]; [|done].
  destruct (invoke W _) as [content|e]; cbn [fst snd].
  - repeat split.
    rewrite get_history_store, !add_message_insert.
    by rewrite <- app_assoc.
  - repeat split. intros s.
    rewrite get_history_store. apply messages_of_insert_self.
Qed.

(** ** C7: a blank question reaches no external service *)

(** C7: a question that is empty or whitespace only is answered with the
    status 400 at once: the request makes no call to the vector store or
    to the model, in whatever world it runs, and leaves the store as it
    was. *)
Theorem chat_rejects_blank_question (W : World) (store : SessionStore)
  (question session_id : str) (k : option Z) (documents : option str) :
  let request :=
    chat SYSTEM_PROMPT settings store question session_id k documents in
  let rejection :=
    (store, HTTPException 400 (lit "Question cannot be empty")) in
  blank question →
  strip question = [] ∧
  request = Return rejection ∧
  run W request = (rejection, []).
Proof.
  cbv zeta. intros Hb. split; [by apply strip_nil_iff|].
  by rewrite (chat_blank W).
Qed.

(** ** C9: [k = 0] stands for the default *)

(** C9: a request with [k = 0] is the same program as the request without
    [k]; for a question that is not blank its search asks for
    [max_context_docs] chunks, and the only request answered with the
    status 400 is the one with a blank question. *)
Theorem chat_zero_k_is_default (W : World) (store : SessionStore)
  (question session_id : str) (documents : option str) :
  let request k :=
    chat SYSTEM_PROMPT settings store question session_id k documents in
  request (Some 0) = request None ∧
  (¬ blank question →
   ∃ rest,
     (run W (request (Some 0))).2 =
       EvSearch question (max_context_docs settings)
         (restriction (stated_filter documents)) :: rest ∧
     Forall (λ e, is_search e = false) rest) ∧
  (∀ detail, (run W (request (Some 0))).1.2 = HTTPException 400 detail →
             blank question).
Proof.
  cbv zeta. split; [done|]. split.
  - intros Hnb. rewrite (chat_run W) by done. cbv zeta. cbn [snd].
    rewrite answer_question_run. cbv zeta.
    rewrite parse_documents_stated. cbn [int_or Z.eqb].
    destruct (similarity_search W question _ _) as [docs|e];
      [|eexists; split; [reflexivity|constructor]].
    destruct (invoke W _) as [content|e];
      (eexists; split; [reflexivity|by repeat constructor]).
  - intros detail Hresp.
    destruct (decide (blank question)) as [|Hnb]; [done|exfalso].
    rewrite (chat_run W) in Hresp by done. cbv zeta in Hresp.
    cbn [fst snd] in Hresp.
    by destruct (run W (answer_question _ _ _ _ _ _)) as [[? []] ?].
Qed.

(** ** C10: a failed generation leaves the new session behind *)

(** C10: for a session the store has not seen, [get_history] inserts an
    empty history while the prompt is assembled, that is once the search
    has returned and before the model is called: the prompt is built from
    the empty history, and whatever the model does the store holds the
    session afterwards.  When the model fails the request ends with the
    status 500 and leaves the store changed: it holds the new, empty
    session. *)
Theorem failed_generation_keeps_session (W : World) (store : SessionStore)
  (question session_id : str) (k : option Z) (documents : option str)
  (docs : list Document) :
  let top_k := int_or k (max_context_docs settings) in
  let flt := restriction (stated_filter documents) in
  let msg := prompt_of SYSTEM_PROMPT docs [] question in
  let r := run W (chat SYSTEM_PROMPT settings store question session_id k
                    documents) in
  store !! session_id = None →
  ¬ blank question →
  similarity_search W question top_k flt = Ok docs →
  get_history store session_id = (<[session_id := []]> store, []) ∧
  r.2 = [EvSearch question top_k flt; EvInvoke msg] ∧
  match invoke W msg with
  | Raise e =>
      r.1 = (<[session_id := []]> store,
             HTTPException 500 (lit "Chat failed: " ++ exn_str e)) ∧
      r.1.1 !! session_id = Some [] ∧
      r.1.1 ≠ store
  | Ok content =>
      r.1.1 = <[session_id := [mkMessage human question;
                               mkMessage ai content]]> store
  end.
Proof.
  cbv zeta. intros Hnew Hnb Hsearch.
  assert (get_history store session_id = (<[session_id := []]> store, []))
    as Hget by (unfold get_history; by rewrite Hnew).
  split; [done|].
  rewrite (chat_run W) by done. cbv zeta.
  rewrite answer_question_run. cbv zeta.
  rewrite parse_documents_stated, Hsearch.
  unfold messages_of. rewrite Hnew. cbn [from_option].
  destruct (invoke W _) as [content|e]; cbn [fst snd]; rewrite Hget;
    cbn [fst snd].
  - split; [done|]. by rewrite !add_message_insert.
  - split; [done|]. split; [done|]. split; [apply lookup_insert_eq|].
    intros Heq. apply (f_equal (λ m : SessionStore, m !! session_id)) in Heq.
    by rewrite lookup_insert_eq, Hnew in Heq.
Qed.

(** ** C5: the document filter *)


(** ** The history window *)

(** X2: only the last six messages of the session are read: they are the
    end of the history, all of it when it has fewer than six messages, and
    two stores whose histories for the session end in the same six messages
    lead to the same calls and to the same outcome. *)
Theorem answer_question_reads_last_six (W : World)
  (store1 store2 : SessionStore) (question session_id : str) (k : Z)
  (filter_docs : option (list str)) :
  let recent store := last_slice 6 (messages_of store session_id) in
  let r store := run W (answer_question SYSTEM_PROMPT store question
                          session_id k filter_docs) in
  recent store1 = recent store2 →
  (∃ older, messages_of store1 session_id = older ++ recent store1) ∧
  length (recent store1) =
    (length (messages_of store1 session_id) `min` 6)%nat ∧
  (r store1).2 = (r store2).2 ∧
  (r store1).1.2 = (r store2).1.2.
Proof.
  cbv zeta. intros Hrecent. split; [|split].
  - exists (take (length (messages_of store1 session_id) - 6)
              (messages_of store1 session_id)).
    unfold last_slice. by rewrite take_drop.
  - unfold last_slice. rewrite length_drop. lia.
  - rewrite !answer_question_run. cbv zeta. unfold prompt_of.
    rewrite Hrecent.
    destruct (similarity_search W question k _) as [docs|e]; [|done].
    by destruct (invoke W _).
Qed.

End Facts.

Lemma not_blank_literal c s : isspace c = false → ¬ blank (c :: s).
Proof. intros Hc Hb. inversion Hb; congruence. Qed.

(** C7 on the question made of a space, a tab and a newline. *)
Lemma chat_rejects_blank_question_witness :
  let question := [32; 9; 10]%N in
  let request :=
    chat short_prompt default_settings ∅ question (lit "default") (Some 3)
      (Some (lit "A.pdf")) in
  let rejection :=
    (∅, HTTPException 400 (lit "Question cannot be empty")) in
  blank question ∧
  strip question = [] ∧
  request = Return rejection ∧
  run answering_world request = (rejection, []).
Proof.
  cbv zeta. split; [by repeat constructor|].
  apply (chat_rejects_blank_question short_prompt default_settings
           answering_world ∅ [32; 9; 10]%N (lit "default") (Some 3)
           (Some (lit "A.pdf"))).
  by repeat constructor.
Defined.

(** C10 on a first request of session "s1" in the world whose model
    fails. *)
Lemma failed_generation_keeps_session_witness :
  let question := lit "What is alpha?" in
  let session_id := lit "s1" in
  let documents := Some (lit "A.pdf, ,") in
  let flt := Some (SourceIn [lit "A.pdf"]) in
  let msg := prompt_of short_prompt [alpha_one; alpha_two] [] question in
  let r := run failing_world
             (chat short_prompt default_settings ∅ question session_id
                (Some 0) documents) in
  get_history ∅ session_id = (<[session_id := []]> ∅, []) ∧
  r.2 = [EvSearch question 6 flt; EvInvoke msg] ∧
  r.1 = (<[session_id := []]> ∅,
         HTTPException 500 (lit "Chat failed: rate limit")) ∧
  r.1.1 !! session_id = Some [] ∧
  r.1.1 ≠ ∅.
Proof.
  cbv zeta.
  apply (failed_generation_keeps_session short_prompt default_settings
           failing_world ∅ (lit "What is alpha?") (lit "s1") (Some 0)
           (Some (lit "A.pdf, ,")) [alpha_one; alpha_two]).
  - reflexivity.
  - by apply not_blank_literal.
  - vm_compute. reflexivity.
Defined.


(** X2 on a history of seven messages and the history without its first
    message. *)
Lemma answer_question_reads_last_six_witness :
  let session_id := lit "s1" in
  let store1 : SessionStore := {[ session_id := seven_messages ]} in
  let store2 : SessionStore := {[ session_id := drop 1 seven_messages ]} in
  let r store := run answering_world
                   (answer_question short_prompt store (lit "q5") session_id
                      4 None) in
  last_slice 6 (messages_of store1 session_id) = drop 1 seven_messages ∧
  (r store1).2 = (r store2).2 ∧
  (r store1).1.2 = (r store2).1.2.
Proof.
  cbv zeta.
  pose proof (answer_question_reads_last_six short_prompt answering_world
                {[ lit "s1" := seven_messages ]}
                {[ lit "s1" := drop 1 seven_messages ]}
                (lit "q5") (lit "s1") 4 None) as Hthm.
  cbv zeta in Hthm. split; [reflexivity|].
  apply Hthm. reflexivity.
Defined.

End PipelineProps.

(** ** Sessions across requests *)

Module SessionProps.
Import Citations Chains Main PipelineSpec StrProps PipelineProps SessionSpec.

Section Sessions.
Variable SYSTEM_PROMPT : str.
Variable settings : Settings.
Implicit Types (store : SessionStore) (rq : request).



(** X4: [get_history] returns the messages the store holds for the
    session, none for a session it has not seen; afterwards the store
    holds exactly these messages for the session, every other session is as
    before, a store that knew the session is unchanged, and asking again
    changes nothing more. *)
Theorem get_history_lookup (store : SessionStore) (session_id s : str) :
  let out := get_history store session_id in
  out.2 = messages_of store session_id ∧
  out.1 !! session_id = Some out.2 ∧
  (s ≠ session_id → out.1 !! s = store !! s) ∧
  (is_Some (store !! session_id) → out.1 = store) ∧
  get_history out.1 session_id = out.
Proof.
  cbv zeta. unfold get_history, messages_of.
  destruct (store !! session_id) as [h|] eqn:Hs; cbn [fst snd from_option].
  - repeat split; try done. by rewrite Hs.
  - rewrite lookup_insert_eq. repeat split; try done.
    intros Hne. by rewrite lookup_insert_ne.
Qed.

End Sessions.

End SessionProps.

(** ** The parsed document filter *)

Module ParseProps.
Import Main PipelineSpec StrProps ParseSpec.

Lemma lstrip_keep c s : isspace c = false → lstrip (c :: s) = c :: s.
Proof. intros Hc. simpl. by rewrite Hc. Qed.

Lemma lstrip_head s c r : lstrip s = c :: r → isspace c = false.
Proof.
  induction s as [|a s IH]; simpl; [done|].
  destruct (isspace a) eqn:Ha; [done|]. by intros [= <- _].
Qed.

Lemma lstrip_idem s : lstrip (lstrip s) = lstrip s.
Proof.
  destruct (lstrip s) as [|c r] eqn:Hs; [done|].
  apply lstrip_keep. by eapply lstrip_head.
Qed.

(** [lstrip] only removes a blank prefix. *)
Lemma lstrip_split s : ∃ spaces, s = spaces ++ lstrip s ∧ blank spaces.
Proof.
  induction s as [|a s (spaces & Heq & Hb)]; simpl.
  - exists []. split; [done|constructor].
  - destruct (isspace a) eqn:Ha.
    + exists (a :: spaces). split; [by rewrite Heq at 1|by constructor].
    + exists []. split; [done|constructor].
Qed.

Lemma elem_of_lstrip x s : x ∈ lstrip s → x ∈ s.
Proof.
  destruct (lstrip_split s) as (spaces & Heq & _). intros Hx.
  rewrite Heq. apply elem_of_app. by right.
Qed.

Lemma elem_of_strip x s : x ∈ strip s → x ∈ s.
Proof.
  unfold strip, rstrip. rewrite elem_of_reverse. intros Hx.
  apply elem_of_lstrip in Hx. rewrite elem_of_reverse in Hx.
  by apply elem_of_lstrip.
Qed.

Lemma trimmed_strip s : trimmed (strip s).
Proof.
  unfold trimmed, strip, rstrip.
  set (t := lstrip s). set (u := lstrip (reverse t)).
  split; [|by rewrite reverse_involutive; apply lstrip_idem].
  destruct (lstrip_split (reverse t)) as (spaces & Heq & _).
  fold u in Heq. apply (f_equal reverse) in Heq.
  rewrite reverse_involutive, reverse_app in Heq.
  destruct (reverse u) as [|c r] eqn:Hu; [done|].
  apply lstrip_keep. apply (lstrip_head s c (r ++ reverse spaces)).
  fold t. by rewrite Heq.
Qed.

Lemma strip_trimmed s : trimmed s → strip s = s.
Proof.
  intros [Hl Hr]. unfold strip, rstrip.
  by rewrite Hl, Hr, reverse_involutive.
Qed.

Lemma split_nonempty sep s : split sep s ≠ [].
Proof.
  destruct s as [|c s]; simpl; [done|].
  destruct (c =? sep)%N; [done|]. by destruct (split sep s).
Qed.

(** No piece of a split contains the separator. *)
Lemma split_no_sep sep s piece : piece ∈ split sep s → sep ∉ piece.
Proof.
  revert piece. induction s as [|c s IH]; intros piece; simpl.
  - intros Hin. apply list_elem_of_singleton in Hin as ->.
    apply not_elem_of_nil.
  - destruct (c =? sep)%N eqn:Hc.
    + intros Hin. apply elem_of_cons in Hin as [->|Hin].
      * apply not_elem_of_nil.
      * by apply IH.
    + apply N.eqb_neq in Hc.
      destruct (split sep s) as [|p ps] eqn:Hs.
      { by destruct (split_nonempty sep s). }
      intros Hin. apply elem_of_cons in Hin as [->|Hin].
      * apply not_elem_of_cons. split; [done|].
        apply IH, list_elem_of_here.
      * by apply IH, list_elem_of_further.
Qed.

Lemma split_without_sep sep p : sep ∉ p → split sep p = [p].
Proof.
  induction p as [|c p IH]; [done|].
  rewrite not_elem_of_cons. intros [Hne Hp]. simpl.
  apply not_eq_sym, N.eqb_neq in Hne. by rewrite Hne, IH.
Qed.

Lemma split_app_sep sep p rest :
  sep ∉ p → split sep (p ++ sep :: rest) = p :: split sep rest.
Proof.
  induction p as [|c p IH]; simpl.
  - intros _. by rewrite N.eqb_refl.
  - rewrite not_elem_of_cons. intros [Hne Hp].
    apply not_eq_sym, N.eqb_neq in Hne. by rewrite Hne, IH.
Qed.

(** Splitting the join of separator-free pieces gives the pieces back. *)
Lemma split_join sep (pieces : list str) :
  pieces ≠ [] → Forall (λ p, sep ∉ p) pieces →
  split sep (join [sep] pieces) = pieces.
Proof.
  induction pieces as [|p pieces IH]; [done|]. intros _ Hall.
  apply Forall_cons in Hall as [Hp Hall].
  destruct pieces as [|q pieces].
  - by apply split_without_sep.
  - change (join [sep] (p :: q :: pieces))
      with (p ++ sep :: join [sep] (q :: pieces)).
    rewrite split_app_sep by done. by rewrite IH.
Qed.

(** X5: every name [chat] hands to retrieval is non-empty, has no
    whitespace at either end and contains no comma. *)
Theorem parse_documents_names (documents : option str) :
  Forall filter_name (default [] (parse_documents documents)).
Proof.
  destruct documents as [s|]; [|constructor]. simpl.
  destruct (bool_decide (s ≠ []) && bool_decide (strip s ≠ []));
    [|constructor].
  cbn [from_option id]. apply Forall_fmap, Forall_forall.
  intros doc Hdoc. apply list_elem_of_filter in Hdoc as [Hne Hin].
  split; [done|]. split; [apply trimmed_strip|].
  intros Hcomma. apply elem_of_strip in Hcomma.
  by apply (split_no_sep 44%N s doc).
Qed.

(** X6: the comma-joined text of a non-empty list of names, each
    non-empty, trimmed and comma-free, is parsed back to that list. *)
Theorem parse_documents_join (names : list str) :
  names ≠ [] → Forall filter_name names →
  parse_documents (Some (join [44%N] names)) = Some names.
Proof.
  intros Hne Hall.
  assert (split 44%N (join [44%N] names) = names) as Hsplit.
  { apply split_join; [done|].
    eapply Forall_impl; [exact Hall|]. by intros n (_ & _ & Hn). }
  assert (strip <$> filter (λ doc, strip doc ≠ []) names = names) as Hid.
  { clear Hne Hsplit. induction Hall as [|n names (Hn & Ht & _) _ IH];
      [done|].
    rewrite filter_cons, decide_True by by rewrite strip_trimmed.
    by rewrite fmap_cons, IH, strip_trimmed. }
  assert (strip (join [44%N] names) ≠ []) as Hnb.
  { rewrite strip_nil_iff. intros Hb.
    destruct names as [|n names]; [done|].
    apply Forall_cons in Hall as [(Hn & [Hl _] & _) _].
    destruct n as [|c r]; [done|].
    apply lstrip_head in Hl.
    assert (c ∈ join [44%N] ((c :: r) :: names)) as Hc.
    { destruct names; simpl; apply list_elem_of_here. }
    eapply Forall_forall in Hb; [|exact Hc]. congruence. }
  assert (join [44%N] names ≠ []) as Hnn by (by intros Heq; rewrite Heq in Hnb).
  unfold parse_documents.
  by rewrite !bool_decide_eq_true_2, Hsplit, Hid by done.
Qed.

(** X6 on two names. *)
Lemma parse_documents_join_witness :
  let names := [lit "report.pdf"; lit "my notes.txt"] in
  names ≠ [] ∧ Forall filter_name names ∧
  parse_documents (Some (lit "report.pdf,my notes.txt")) = Some names.
Proof.
  cbv zeta.
  assert (Forall filter_name [lit "report.pdf"; lit "my notes.txt"]) as Hall.
  { repeat apply Forall_cons_2; [..|apply Forall_nil_2];
      (split; [done|]); (split; [by split|]);
      intros Hin; vm_compute in Hin;
      repeat (apply elem_of_cons in Hin as [Hin|Hin]; [done|]);
      by apply not_elem_of_nil in Hin. }
  split; [done|]. split; [exact Hall|].
  exact (parse_documents_join [lit "report.pdf"; lit "my notes.txt"]
           ltac:(done) Hall).
Defined.

End ParseProps.

(** ** Listing and deleting documents *)

Module BackendProps.
Import Loaders Main Backend CitationSpec CitationProps BackendSpec.

Section AssocFacts.
Context {K V : Type} `{EqDecision K}.
Implicit Types (l : list K) (g : K → V).

(** An insertion-ordered dictionary that holds [g k] for each key of [l]. *)
Lemma assoc_get_tabulate (k : K) g l :
  assoc_get k ((λ k', (k', g k')) <$> l) =
    if decide (k ∈ l) then Some (g k) else None.
Proof.
  induction l as [|a l IH]; [done|]. rewrite fmap_cons. cbn [assoc_get].
  destruct (decide (k = a)) as [->|Hne].
  - by rewrite decide_True by apply list_elem_of_here.
  - rewrite IH. destruct (decide (k ∈ l)) as [Hin|Hin].
    + by rewrite decide_True by by apply list_elem_of_further.
    + by rewrite decide_False by (rewrite elem_of_cons; tauto).
Qed.

Lemma assoc_set_new (k : K) (v : V) g l :
  k ∉ l →
  assoc_set k v ((λ k', (k', g k')) <$> l) =
    ((λ k', (k', g k')) <$> l) ++ [(k, v)].
Proof.
  induction l as [|a l IH]; [done|]. rewrite not_elem_of_cons.
  intros [Hne Hnin]. rewrite fmap_cons. cbn [assoc_set].
  by rewrite decide_False, IH.
Qed.

Lemma assoc_set_old (k : K) (v : V) g l :
  k ∈ l → NoDup l →
  assoc_set k v ((λ k', (k', g k')) <$> l) =
    (λ k', (k', if decide (k' = k) then v else g k')) <$> l.
Proof.
  induction l as [|a l IH]; intros Hin Hnd.
  { by apply not_elem_of_nil in Hin. }
  apply NoDup_cons in Hnd as [Ha Hnd].
  rewrite !fmap_cons. cbn [assoc_set].
  destruct (decide (k = a)) as [->|Hne].
  - rewrite decide_True by done. f_equal.
    apply list_fmap_ext. intros i x Hx.
    rewrite decide_False; [done|]. intros ->.
    by apply list_elem_of_lookup_2 in Hx.
  - rewrite (decide_False (P := a = k)) by done. f_equal.
    apply IH; [|done]. apply elem_of_cons in Hin as [?|?]; done.
Qed.

End AssocFacts.

Section Listing.
Implicit Types (rows : list dict) (m : dict) (k : value).

Lemma named_snoc k rows m :
  named k (rows ++ [m]) =
    named k rows ++ (if decide (name_key m = k) then [m] else []).
Proof.
  unfold named. by rewrite filter_app, (filter_cons _ m []), filter_nil.
Qed.

Lemma named_elem k rows m : m ∈ named k rows ↔ name_key m = k ∧ m ∈ rows.
Proof. unfold named. by rewrite list_elem_of_filter. Qed.

Lemma named_absent k rows : k ∉ name_key <$> rows → named k rows = [].
Proof.
  intros Hnin. destruct (named k rows) as [|m others] eqn:Hn; [done|].
  exfalso. assert (m ∈ named k rows) as Hm.
  { rewrite Hn. apply list_elem_of_here. }
  apply named_elem in Hm as [<- Hm]. by apply Hnin, list_elem_of_fmap_2.
Qed.

Lemma named_present k rows :
  k ∈ name_key <$> rows → ∃ m others, named k rows = m :: others.
Proof.
  intros Hin. apply list_elem_of_fmap in Hin as (m & -> & Hm).
  destruct (named (name_key m) rows) as [|m0 others] eqn:Hn; [|by eauto].
  assert (m ∈ named (name_key m) rows) as Hm' by by apply named_elem.
  rewrite Hn in Hm'. by apply not_elem_of_nil in Hm'.
Qed.

Lemma summary_snoc_other k rows m :
  name_key m ≠ k → summary (rows ++ [m]) k = summary rows k.
Proof.
  intros Hne. unfold summary.
  by rewrite named_snoc, decide_False, app_nil_r.
Qed.

Lemma summary_snoc_first rows m :
  name_key m ∉ name_key <$> rows →
  summary (rows ++ [m]) (name_key m) = add_chunk (listed m 0).
Proof.
  intros Hnin. unfold summary.
  by rewrite named_snoc, decide_True, named_absent.
Qed.

Lemma summary_snoc_again rows m :
  name_key m ∈ name_key <$> rows →
  summary (rows ++ [m]) (name_key m) = add_chunk (summary rows (name_key m)).
Proof.
  intros Hin. unfold summary.
  rewrite named_snoc, decide_True by done.
  destruct (named_present _ _ Hin) as (m0 & others & ->).
  cbn [app]. unfold add_chunk, listed. cbn. f_equal.
  rewrite length_app. cbn. lia.
Qed.

(** The loop over rows that all have metadata leaves one entry per key, in
    first-seen order of the keys, each the summary of its rows. *)
Lemma count_rows rows :
  foldl count_chunk [] rows =
    (λ k, (k, summary rows k)) <$> first_seen (name_key <$> rows).
Proof.
  induction rows as [|m rows IH] using rev_ind; [done|].
  rewrite foldl_snoc, IH, fmap_snoc, first_seen_snoc.
  set (keys := first_seen (name_key <$> rows)).
  assert (NoDup keys) as Hnd by apply NoDup_first_seen.
  assert (∀ k, k ∈ keys ↔ k ∈ name_key <$> rows) as Hkeys.
  { intros k. apply elem_of_first_seen. }
  unfold count_chunk. fold (name_key m).
  change (new_document (listed_name m) m) with (listed m 0).
  destruct (decide (name_key m ∈ name_key <$> rows)) as [Hin|Hnin].
  - cbn [fmap list_fmap]. rewrite app_nil_r, assoc_get_tabulate.
    rewrite decide_True by by apply Hkeys.
    rewrite assoc_get_tabulate, decide_True by by apply Hkeys.
    rewrite assoc_set_old by (by apply Hkeys || done).
    apply list_fmap_ext. intros i k Hk. f_equal.
    destruct (decide (k = name_key m)) as [->|Hne].
    + by rewrite summary_snoc_again.
    + by rewrite summary_snoc_other.
  - rewrite assoc_get_tabulate, decide_False by by rewrite Hkeys.
    rewrite assoc_set_new by by rewrite Hkeys.
    assert (((λ k, (k, summary rows k)) <$> keys) ++ [(name_key m, listed m 0)]
            = (λ k, (k, if decide (k = name_key m) then listed m 0
                        else summary rows k)) <$> (keys ++ [name_key m]))
      as ->.
    { rewrite fmap_app. cbn [fmap list_fmap]. rewrite decide_True by done.
      f_equal. apply list_fmap_ext. intros i k Hk.
      rewrite decide_False; [done|]. intros ->.
      apply list_elem_of_lookup_2 in Hk. by apply Hnin, Hkeys. }
    assert (name_key m ∈ keys ++ [name_key m]) as Hlast.
    { apply elem_of_app. right. apply list_elem_of_here. }
    assert (NoDup (keys ++ [name_key m])) as Hnd'.
    { apply NoDup_app. split; [done|]. split; [|apply NoDup_singleton].
      intros k Hk Hk'. apply list_elem_of_singleton in Hk' as ->.
      by apply Hnin, Hkeys. }
    rewrite assoc_get_tabulate, decide_True by done.
    rewrite decide_True by done.
    rewrite assoc_set_old by done.
    apply list_fmap_ext. intros i k Hk. f_equal.
    destruct (decide (k = name_key m)) as [->|Hne].
    + by rewrite summary_snoc_first.
    + by rewrite summary_snoc_other.
Qed.

Lemma count_documents_rows acc rows :
  count_documents acc (Some <$> rows) = Ok (foldl count_chunk acc rows).
Proof.
  revert acc. induction rows as [|m rows IH]; intros acc; [done|].
  cbn. apply IH.
Qed.

Lemma summary_chunks rows k :
  d_chunks (summary rows k) = Z.of_nat (length (named k rows)).
Proof. unfold summary. by destruct (named k rows). Qed.

Lemma summary_name rows k :
  k ∈ name_key <$> rows → dict_key (d_filename (summary rows k)) = k.
Proof.
  intros Hin. unfold summary.
  destruct (named_present _ _ Hin) as (m & others & Hn). rewrite Hn.
  assert (m ∈ named k rows) as Hm by (rewrite Hn; apply list_elem_of_here).
  by apply named_elem in Hm as [<- _].
Qed.

Lemma named_split (a : value) (l : list value) rows :
  a ∉ l →
  length (filter (λ m, name_key m ∈ a :: l) rows) =
    (length (named a rows) + length (filter (λ m, name_key m ∈ l) rows))%nat.
Proof.
  intros Ha. unfold named. induction rows as [|m rows IH]; [done|].
  rewrite !filter_cons.
  destruct (decide (name_key m = a)) as [Heq|Hne].
  - rewrite decide_True by (rewrite Heq; apply list_elem_of_here).
    rewrite (decide_False (P := name_key m ∈ l)) by by rewrite Heq.
    cbn. by rewrite IH.
  - destruct (decide (name_key m ∈ l)) as [Hin|Hnin].
    + rewrite decide_True by by apply list_elem_of_further.
      cbn. rewrite IH. lia.
    + rewrite decide_False by (rewrite elem_of_cons; tauto). done.
Qed.

Lemma chunk_sum_summary rows (l : list value) :
  NoDup l →
  chunk_sum (summary rows <$> l) =
    Z.of_nat (length (filter (λ m, name_key m ∈ l) rows)).
Proof.
  induction 1 as [|a l Ha Hnd IH].
  - cbn. induction rows as [|m rows IHr]; [done|].
    rewrite filter_cons, decide_False by apply not_elem_of_nil. done.
  - rewrite fmap_cons. cbn [chunk_sum foldr]. fold (chunk_sum (summary rows <$> l)).
    rewrite IH, summary_chunks, named_split by done. lia.
Qed.

(** The chunk counts of the listing add up to the number of rows. *)
Lemma chunk_sum_rows rows :
  chunk_sum (summary rows <$> first_seen (name_key <$> rows)) =
    Z.of_nat (length rows).
Proof.
  rewrite chunk_sum_summary by apply NoDup_first_seen. do 2 f_equal.
  assert (∀ (l : list value) (some : list dict),
            (∀ m, m ∈ some → name_key m ∈ l) →
            filter (λ m, name_key m ∈ l) some = some) as Hall.
  { intros l some. induction some as [|m some IH]; intros Hin; [done|].
    rewrite filter_cons, decide_True by apply Hin, list_elem_of_here.
    rewrite IH; [done|]. intros m' Hm'.
    by apply Hin, list_elem_of_further. }
  apply Hall. intros m Hm.
  by apply elem_of_first_seen, list_elem_of_fmap_2.
Qed.

End Listing.

Lemma count_documents_missing (acc : list (value * doc_info))
  (rows : list (option dict)) :
  None ∈ rows → count_documents acc rows = Raise attribute_error.
Proof.
  revert acc. induction rows as [|[m|] rows IH]; intros acc Hin.
  - by apply not_elem_of_nil in Hin.
  - apply elem_of_cons in Hin as [?|Hin]; [done|]. cbn. by apply IH.
  - done.
Qed.

(** What the listing answers on rows that all have metadata. *)
Lemma list_documents_rows (res : get_result) (rows : list dict)
  (t : list event) (a : reply listing) :
  metadatas res = Some (Some <$> rows) →
  exec list_documents (EGet (Ok (Some res)) :: t) a →
  ∃ body,
    a = Success body ∧ t = [] ∧
    documents body = summary rows <$> first_seen (name_key <$> rows).
Proof.
  intros Hrows Hexec.
  inversion Hexec as [| | | | | | | |next r t' a' Hnext|]; subst.
  cbn [rows_of ids_of] in Hnext. rewrite Hrows in Hnext.
  cbn [from_option id] in Hnext.
  rewrite count_documents_rows, count_rows in Hnext.
  inversion Hnext; subst. eexists. split; [reflexivity|]. split; [done|].
  cbn [documents]. by rewrite <- list_fmap_compose.
Qed.

(** X7: when every stored row has metadata, the listing has one entry per
    distinct document name, in the order the names are first met; an entry
    takes its fields from the first row of its name and counts the rows of
    that name; the counts add up to the number of rows, and
    [total_chunks] is the number of ids. *)
Theorem list_documents_summary (res : get_result) (rows : list dict)
  (t : list event) (a : reply listing) :
  metadatas res = Some (Some <$> rows) →
  exec list_documents (EGet (Ok (Some res)) :: t) a →
  let names := first_seen (name_key <$> rows) in
  ∃ body,
    a = Success body ∧ t = [] ∧
    total_chunks body = length (ids res) ∧
    total_documents body = length names ∧
    (dict_key ∘ d_filename) <$> documents body = names ∧
    documents body = summary rows <$> names ∧
    chunk_sum (documents body) = Z.of_nat (length rows).
Proof.
  intros Hrows Hexec. cbv zeta.
  inversion Hexec as [| | | | | | | |next r t' a' Hnext|]; subst.
  cbn [rows_of ids_of] in Hnext. rewrite Hrows in Hnext.
  cbn [from_option id] in Hnext.
  rewrite count_documents_rows, count_rows in Hnext.
  inversion Hnext; subst. eexists. split; [reflexivity|].
  cbn [total_chunks total_documents documents].
  set (names := first_seen (name_key <$> rows)).
  assert (((λ k, (k, summary rows k)) <$> names).*2 = summary rows <$> names)
    as -> by by rewrite <- list_fmap_compose.
  rewrite length_fmap. repeat split; try done.
  - rewrite <- list_fmap_compose.
    rewrite <- (list_fmap_id names) at 2.
    apply list_fmap_ext. intros i k Hk. cbn.
    apply summary_name, elem_of_first_seen.
    by apply list_elem_of_lookup_2 in Hk.
  - apply chunk_sum_rows.
Qed.

(** X7 on the store of three chunks. *)
Lemma list_documents_summary_witness :
  let rows := [row_a1; row_b; row_a2] in
  let names := [PStr (lit "a.pdf"); PStr (lit "b.txt")] in
  let body := {| total_documents := 2; total_chunks := 3;
                 documents := [listed row_a1 2; listed row_b 1] |} in
  metadatas three_rows = Some (Some <$> rows) ∧
  exec list_documents [EGet (Ok (Some three_rows))] (Success body) ∧
  first_seen (name_key <$> rows) = names ∧
  chunk_sum (documents body) = 3.
Proof.
  cbv zeta.
  assert (exec list_documents [EGet (Ok (Some three_rows))]
            (Success {| total_documents := 2; total_chunks := 3;
                        documents := [listed row_a1 2; listed row_b 1] |}))
    as Hexec.
  { apply exec_Get. vm_compute. apply exec_Pure. }
  split; [reflexivity|]. split; [exact Hexec|].
  destruct (list_documents_summary three_rows [row_a1; row_b; row_a2] [] _
              eq_refl Hexec)
    as (body & Hbody & _ & _ & _ & Hnames & _ & Hsum).
  injection Hbody as <-. cbv zeta in Hnames. split; [|exact Hsum].
  rewrite <- Hnames. reflexivity.
Defined.

(** X8: listing only reads: its one call is [collection.get()].  When the
    call fails, or when a stored row has no metadata, the answer is the
    status 500; when there is no row, it is an empty listing. *)
Theorem list_documents_edges (t : list event) (a : reply listing) :
  exec list_documents t a →
  ∃ got, t = [EGet got] ∧
    match got with
    | Raise e =>
        a = Failure 500 (lit "Failed to list documents: " ++ exn_str e)
    | Ok result =>
        (None ∈ rows_of result →
         a = Failure 500 (lit "Failed to list documents: "
                            ++ exn_str attribute_error)) ∧
        (rows_of result = [] →
         a = Success {| total_documents := 0;
                        total_chunks := length (ids_of result);
                        documents := [] |})
    end.
Proof.
  intros Hexec.
  inversion Hexec as [| | | | | | | |next got t' a' Hnext|]; subst.
  exists got. destruct got as [result|e].
  - destruct (count_documents [] (rows_of result)) as [docs|e] eqn:Hcount;
      inversion Hnext; subst; (split; [done|]); split; intros Hrows.
    + by rewrite count_documents_missing in Hcount.
    + rewrite Hrows in Hcount. by injection Hcount as <-.
    + rewrite count_documents_missing in Hcount by done.
      by injection Hcount as <-.
    + by rewrite Hrows in Hcount.
  - by inversion Hnext.
Qed.

(** X8 on a failing store. *)
Lemma list_documents_edges_witness :
  let got : result (option get_result) :=
    Raise (Exception (lit "unreachable")) in
  let a : reply listing :=
    Failure 500 (lit "Failed to list documents: unreachable") in
  exec list_documents [EGet got] a ∧
  ∃ got', [EGet got] = [EGet got'] ∧
    match got' with
    | Raise e =>
        a = Failure 500 (lit "Failed to list documents: " ++ exn_str e)
    | Ok result =>
        (None ∈ rows_of result →
         a = Failure 500 (lit "Failed to list documents: "
                            ++ exn_str attribute_error)) ∧
        (rows_of result = [] →
         a = Success {| total_documents := 0;
                        total_chunks := length (ids_of result);
                        documents := [] |})
    end.
Proof.
  cbv zeta.
  assert (exec list_documents
            [EGet (Raise (Exception (lit "unreachable")))]
            (Failure 500 (lit "Failed to list documents: unreachable")))
    as Hexec by (apply exec_Get, exec_Pure).
  split; [exact Hexec|].
  exact (list_documents_edges _ _ Hexec).
Defined.

Section Deleting.
Implicit Types (rows : list dict) (ids : list str) (filename : str).

Lemma doomed_cons filename id ids m rows :
  doomed filename (id :: ids) (m :: rows) =
    (if decide (deleted_name m = PStr filename) then [id] else [])
      ++ doomed filename ids rows.
Proof.
  unfold doomed. cbn [zip zip_with]. rewrite filter_cons. cbn [snd].
  by destruct (decide (deleted_name m = PStr filename)).
Qed.

Lemma doomed_no_rows filename ids : doomed filename ids [] = [].
Proof. unfold doomed. by destruct ids. Qed.

(** The loop of [delete_document] over rows that all have metadata and
    ids that are as many as the rows. *)
Lemma matching_ids_rows filename ids rows i found n :
  (i + length rows ≤ length ids)%nat →
  matching_ids filename ids i (Some <$> rows) found n =
    Ok (found ++ doomed filename (drop i ids) rows,
        (n + length (doomed filename (drop i ids) rows))%nat).
Proof.
  revert i found n.
  induction rows as [|m rows IH]; intros i found n Hlen.
  { cbn. by rewrite doomed_no_rows, app_nil_r, Nat.add_0_r. }
  cbn [length] in Hlen.
  destruct (lookup_lt_is_Some_2 ids i ltac:(lia)) as [id Hid].
  rewrite (drop_S _ _ _ Hid), doomed_cons. cbn [fmap list_fmap matching_ids].
  change (list_fmap dict (option dict) Some rows) with (Some <$> rows).
  destruct (decide (deleted_name m = PStr filename)).
  - rewrite Hid, IH by lia. cbn [app length]. rewrite <- app_assoc.
    do 2 f_equal. lia.
  - by rewrite IH by lia.
Qed.

(** Rows that do not match cost no look-up of an id. *)
Lemma matching_ids_none filename ids rows i found n :
  Forall (λ m, deleted_name m ≠ PStr filename) rows →
  matching_ids filename ids i (Some <$> rows) found n = Ok (found, n).
Proof.
  intros Hall. revert i.
  induction Hall as [|m rows Hm _ IH]; intros i; [done|].
  cbn. by rewrite decide_False, IH.
Qed.

(** The answers of [delete_document] once the ids to delete are known. *)
Lemma delete_document_exec filename (res : get_result) rows t
  (a : reply deletion) :
  length (ids res) = length rows →
  metadatas res = Some (Some <$> rows) →
  exec (delete_document filename) (EGet (Ok (Some res)) :: t) a ↔
  match doomed filename (ids res) rows with
  | [] =>
      t = [] ∧
      a = Failure 404 (lit "Document '" ++ filename ++ lit "' not found")
  | gone =>
      ∃ r, t = [EDelete gone r] ∧
        a = match r with
            | Ok _ =>
                Success {| message := lit "Successfully deleted '"
                                        ++ filename ++ lit "'";
                           chunks_deleted := length gone |}
            | Raise e =>
                Failure 500
                  (lit "Failed to delete document: " ++ exn_str e)
            end
  end.
Proof.
  intros Hlen Hrows.
  assert (matching_ids filename (ids res) 0 (Some <$> rows) [] 0 =
          Ok (doomed filename (ids res) rows,
              length (doomed filename (ids res) rows))) as Hloop.
  { by rewrite matching_ids_rows by (cbn; lia). }
  split.
  - intros Hexec.
    inversion Hexec as [| | | | | | | |next got t' a' Hnext|]; subst.
    cbn [rows_of ids_of] in Hnext. rewrite Hrows in Hnext.
    cbn [from_option id] in Hnext. rewrite Hloop in Hnext.
    destruct (doomed filename (ids res) rows) as [|id gone].
    + by inversion Hnext.
    + inversion Hnext as [| | | | | | | | |? ? r ? ? Hlast]; subst.
      exists r. split; [|by destruct r; inversion Hlast].
      by destruct r; inversion Hlast.
  - intros Hcase. apply exec_Get.
    cbn [rows_of ids_of]. rewrite Hrows. cbn [from_option id].
    rewrite Hloop.
    destruct (doomed filename (ids res) rows) as [|id gone].
    + destruct Hcase as [-> ->]. apply exec_Pure.
    + destruct Hcase as (r & -> & ->). apply exec_Delete.
      destruct r; apply exec_Pure.
Qed.

End Deleting.

Lemma elem_of_doomed (filename : str) (ids : list str) (rows : list dict)
  (id : str) :
  id ∈ doomed filename ids rows ↔
  ∃ i m, ids !! i = Some id ∧ rows !! i = Some m ∧
         deleted_name m = PStr filename.
Proof.
  unfold doomed. rewrite list_elem_of_fmap. split.
  - intros ([id' m] & -> & Hin). apply list_elem_of_filter in Hin as [Hm Hin].
    apply elem_of_lookup_zip_with in Hin as (i & a & b & [= <- <-] & ? & ?).
    by exists i, m.
  - intros (i & m & Hid & Hm & Hname). exists (id, m). split; [done|].
    apply list_elem_of_filter. split; [done|].
    apply elem_of_lookup_zip_with. by exists i, id, m.
Qed.

(** X9: [delete_document] asks the collection to delete exactly the ids
    of the rows whose name is [filename], in the order of the rows, and
    reports their number; when no row has that name it answers 404 and
    makes no delete call. *)
Theorem delete_document_matching (filename : str) (res : get_result)
  (rows : list dict) (t : list event) (a : reply deletion) :
  length (ids res) = length rows →
  metadatas res = Some (Some <$> rows) →
  exec (delete_document filename) (EGet (Ok (Some res)) :: t) a →
  let gone := doomed filename (ids res) rows in
  (∀ id, id ∈ gone ↔
         ∃ i m, ids res !! i = Some id ∧ rows !! i = Some m ∧
                deleted_name m = PStr filename) ∧
  match gone with
  | [] =>
      t = [] ∧
      a = Failure 404 (lit "Document '" ++ filename ++ lit "' not found")
  | _ :: _ =>
      ∃ r, t = [EDelete gone r] ∧
        a = match r with
            | Ok _ =>
                Success {| message := lit "Successfully deleted '"
                                        ++ filename ++ lit "'";
                           chunks_deleted := length gone |}
            | Raise e =>
                Failure 500
                  (lit "Failed to delete document: " ++ exn_str e)
            end
  end.
Proof.
  intros Hlen Hrows Hexec. cbv zeta. split; [apply elem_of_doomed|].
  apply (delete_document_exec filename res rows t a Hlen Hrows) in Hexec.
  by destruct (doomed filename (ids res) rows).
Qed.

(** X9 on the store of three chunks and the name "a.pdf". *)
Lemma delete_document_matching_witness :
  let rows := [row_a1; row_b; row_a2] in
  let gone := [lit "id1"; lit "id3"] in
  let t := [EGet (Ok (Some three_rows)); EDelete gone (Ok ())] in
  let a := Success {| message := lit "Successfully deleted 'a.pdf'";
                      chunks_deleted := 2 |} in
  length (ids three_rows) = length rows ∧
  metadatas three_rows = Some (Some <$> rows) ∧
  exec (delete_document (lit "a.pdf")) t a ∧
  doomed (lit "a.pdf") (ids three_rows) rows = gone.
Proof.
  cbv zeta.
  assert (exec (delete_document (lit "a.pdf"))
            [EGet (Ok (Some three_rows));
             EDelete [lit "id1"; lit "id3"] (Ok ())]
            (Success {| message := lit "Successfully deleted 'a.pdf'";
                        chunks_deleted := 2 |})) as Hexec.
  { apply exec_Get. vm_compute. apply exec_Delete, exec_Pure. }
  split; [reflexivity|]. split; [reflexivity|]. split; [exact Hexec|].
  pose proof (delete_document_matching (lit "a.pdf") three_rows
                [row_a1; row_b; row_a2] _ _ eq_refl eq_refl Hexec) as Hthm.
  cbv zeta in Hthm. destruct Hthm as [_ Hgone].
  destruct (doomed (lit "a.pdf") (ids three_rows) [row_a1; row_b; row_a2])
    as [|id gone]; [by destruct Hgone|].
  destruct Hgone as (r & Heq & _). congruence.
Defined.

Lemma has_name_same (m : dict) : has_name m → listed_name m = deleted_name m.
Proof.
  unfold has_name, listed_name, deleted_name, get.
  intros [[v Hv]|[v Hv]]; rewrite Hv; [done|].
  by destruct (m !! k_original_filename).
Qed.

Lemma dict_key_string (v : value) (s : str) :
  dict_key v = PStr s ↔ v = PStr s.
Proof. destruct v as [|[]| |]; cbn; split; congruence. Qed.

Lemma doomed_length (filename : str) (ids : list str) (rows : list dict) :
  length ids = length rows →
  Forall has_name rows →
  length (doomed filename ids rows) =
    length (named (PStr filename) rows).
Proof.
  revert ids. induction rows as [|m rows IH]; intros ids Hlen Hall.
  { by rewrite doomed_no_rows. }
  destruct ids as [|id ids]; [done|]. injection Hlen as Hlen.
  apply Forall_cons in Hall as [Hm Hall].
  rewrite doomed_cons, length_app, IH by done.
  unfold named. rewrite filter_cons.
  assert (name_key m = PStr filename ↔ deleted_name m = PStr filename)
    as Hiff.
  { unfold name_key. by rewrite dict_key_string, has_name_same. }
  destruct (decide (deleted_name m = PStr filename)) as [Heq|Hne].
  - by rewrite decide_True by by apply Hiff.
  - by rewrite decide_False by by rewrite Hiff.
Qed.

(** X10: when every row names its document (it has an
    [original_filename] or a [source]) and the store returns as many ids
    as rows, a document that the listing shows under a string name can be
    deleted by that name: [delete_document] then asks to delete as many
    ids as the listing counts chunks for it. *)
Theorem listed_document_deletable (res : get_result) (rows : list dict)
  (body : listing) (info : doc_info) (s : str) :
  length (ids res) = length rows →
  metadatas res = Some (Some <$> rows) →
  Forall has_name rows →
  exec list_documents [EGet (Ok (Some res))] (Success body) →
  info ∈ documents body →
  d_filename info = PStr s →
  let gone := doomed s (ids res) rows in
  gone ≠ [] ∧
  Z.of_nat (length gone) = d_chunks info ∧
  exec (delete_document s) [EGet (Ok (Some res)); EDelete gone (Ok ())]
    (Success {| message := lit "Successfully deleted '" ++ s ++ lit "'";
                chunks_deleted := length gone |}).
Proof.
  intros Hlen Hrows Hnames Hlist Hinfo Hname. cbv zeta.
  destruct (list_documents_rows res rows [] _ Hrows Hlist)
    as (body' & [= <-] & _ & Hdocs).
  rewrite Hdocs in Hinfo. apply list_elem_of_fmap in Hinfo as (k & -> & Hk).
  rewrite elem_of_first_seen in Hk.
  pose proof (summary_name rows k Hk) as Hkey.
  rewrite Hname in Hkey. cbn in Hkey. subst k.
  assert (length (doomed s (ids res) rows) ≠ 0%nat) as Hpos.
  { rewrite doomed_length by done.
    by destruct (named_present _ _ Hk) as (m & others & ->). }
  split; [by destruct (doomed s (ids res) rows)|]. split.
  { by rewrite summary_chunks, doomed_length. }
  apply (delete_document_exec s res rows _ _ Hlen Hrows).
  destruct (doomed s (ids res) rows) as [|id gone]; [done|].
  by exists (Ok ()).
Qed.

(** X10 on the store of three chunks and its document "a.pdf". *)
Lemma listed_document_deletable_witness :
  let rows := [row_a1; row_b; row_a2] in
  let body := {| total_documents := 2; total_chunks := 3;
                 documents := [listed row_a1 2; listed row_b 1] |} in
  let gone := [lit "id1"; lit "id3"] in
  Forall has_name rows ∧
  exec list_documents [EGet (Ok (Some three_rows))] (Success body) ∧
  doomed (lit "a.pdf") (ids three_rows) rows = gone ∧
  Z.of_nat (length gone) = d_chunks (listed row_a1 2) ∧
  exec (delete_document (lit "a.pdf"))
    [EGet (Ok (Some three_rows)); EDelete gone (Ok ())]
    (Success {| message := lit "Successfully deleted 'a.pdf'";
                chunks_deleted := length gone |}).
Proof.
  cbv zeta.
  assert (Forall has_name [row_a1; row_b; row_a2]) as Hnames.
  { repeat apply Forall_cons_2; [..|apply Forall_nil_2];
      first [left; eexists; reflexivity | right; eexists; reflexivity]. }
  assert (exec list_documents [EGet (Ok (Some three_rows))]
            (Success {| total_documents := 2; total_chunks := 3;
                        documents := [listed row_a1 2; listed row_b 1] |}))
    as Hlist.
  { apply exec_Get. vm_compute. apply exec_Pure. }
  split; [exact Hnames|]. split; [exact Hlist|]. split; [reflexivity|].
  pose proof (listed_document_deletable three_rows [row_a1; row_b; row_a2]
                _ (listed row_a1 2) (lit "a.pdf") eq_refl eq_refl Hnames
                Hlist ltac:(apply list_elem_of_here) eq_refl) as Hthm.
  cbv zeta in Hthm. destruct Hthm as (_ & Hcount & Hexec).
  split; [exact Hcount|exact Hexec].
Defined.

Lemma nameless_names (m : dict) :
  ¬ has_name m →
  listed_name m = PStr (lit "Unknown") ∧ deleted_name m = PStr [].
Proof.
  unfold has_name, listed_name, deleted_name, get. intros Hno.
  destruct (m !! k_original_filename) eqn:Ho.
  { exfalso. apply Hno. left. by eexists. }
  destruct (m !! k_source) eqn:Hs; [|done].
  exfalso. apply Hno. right. by eexists.
Qed.

Lemma first_seen_constant {A} `{EqDecision A} (k : A) (l : list A) :
  Forall (λ x, x = k) l → l ≠ [] → first_seen l = [k].
Proof.
  induction 1 as [|x l -> Hall IH]; [done|]. intros _. cbn. f_equal.
  destruct l as [|y l]; [done|]. rewrite IH by done.
  by rewrite filter_cons, decide_False by tauto.
Qed.

(** X11: chunks that carry neither [original_filename] nor [source] are
    listed as one document named "Unknown", but [delete_document] does not
    find them under that name, nor under any other non-empty name: it
    answers 404 and makes no delete call. *)
Theorem nameless_rows_not_deletable (res : get_result) (m : dict)
  (others : list dict) (filename : str) :
  let rows := m :: others in
  metadatas res = Some (Some <$> rows) →
  Forall (λ m, ¬ has_name m) rows →
  filename ≠ [] →
  d_filename (listed m 0) = PStr (lit "Unknown") ∧
  exec list_documents [EGet (Ok (Some res))]
    (Success {| total_documents := 1;
                total_chunks := length (ids res);
                documents := [listed m (Z.of_nat (length rows))] |}) ∧
  ∀ t a,
    exec (delete_document filename) (EGet (Ok (Some res)) :: t) a →
    t = [] ∧
    a = Failure 404 (lit "Document '" ++ filename ++ lit "' not found").
Proof.
  cbv zeta. intros Hrows Hall Hfile.
  assert (Forall (λ k, k = PStr (lit "Unknown")) (name_key <$> m :: others))
    as Hkeys.
  { apply Forall_fmap. eapply Forall_impl; [exact Hall|].
    intros m' Hm'. cbn. unfold name_key.
    by destruct (nameless_names m' Hm') as [-> _]. }
  apply Forall_cons in Hall as Hm. destruct Hm as [Hm _].
  split; [by destruct (nameless_names m Hm) as [? _]|]. split.
  - apply exec_Get. cbn [rows_of ids_of]. rewrite Hrows.
    cbn [from_option id]. rewrite count_documents_rows, count_rows.
    rewrite (first_seen_constant _ _ Hkeys) by done.
    cbn [fmap list_fmap length snd].
    assert (summary (m :: others) (PStr (lit "Unknown")) =
            listed m (Z.of_nat (length (m :: others)))) as ->;
      [|apply exec_Pure].
    unfold summary, named.
    assert (filter (λ m', name_key m' = PStr (lit "Unknown")) (m :: others)
            = m :: others) as ->; [|done].
    clear Hrows Hm Hall. apply Forall_fmap in Hkeys.
    induction Hkeys as [|m' ms Hm' _ IH]; [done|]. cbn in Hm'.
    by rewrite filter_cons, decide_True, IH.
  - intros t a Hexec.
    inversion Hexec as [| | | | | | | |next got t' a' Hnext|]; subst.
    cbn [rows_of ids_of] in Hnext. rewrite Hrows in Hnext.
    cbn [from_option id] in Hnext.
    rewrite matching_ids_none in Hnext; [by inversion Hnext|].
    eapply Forall_impl; [exact Hall|]. intros m' Hm'. cbn.
    destruct (nameless_names m' Hm') as [_ ->]. congruence.
Qed.

(** X11 on the store whose two chunks carry a page only. *)
Lemma nameless_rows_not_deletable_witness :
  let rows := [row_page; row_page] in
  metadatas nameless_rows = Some (Some <$> rows) ∧
  Forall (λ m, ¬ has_name m) rows ∧
  exec list_documents [EGet (Ok (Some nameless_rows))]
    (Success {| total_documents := 1; total_chunks := 2;
                documents := [listed row_page 2] |}) ∧
  ∀ t a,
    exec (delete_document (lit "Unknown"))
      (EGet (Ok (Some nameless_rows)) :: t) a →
    t = [] ∧ a = Failure 404 (lit "Document 'Unknown' not found").
Proof.
  cbv zeta.
  assert (Forall (λ m, ¬ has_name m) [row_page; row_page]) as Hall.
  { repeat apply Forall_cons_2; [..|apply Forall_nil_2];
      intros [[v Hv]|[v Hv]]; vm_compute in Hv; discriminate. }
  split; [reflexivity|]. split; [exact Hall|].
  pose proof (nameless_rows_not_deletable nameless_rows row_page [row_page]
                (lit "Unknown") eq_refl Hall ltac:(done)) as Hthm.
  cbv zeta in Hthm. destruct Hthm as (_ & Hlist & Hdelete).
  split; [exact Hlist|exact Hdelete].
Defined.

(** X12: [delete_all_documents] removes what [list_documents] counts.  On
    a collection that the listing reports as empty it makes no delete
    call; otherwise it deletes all the ids at once, and the
    [chunks_deleted] it answers is the [total_chunks] of the listing,
    whatever names the chunks carry. *)
Theorem delete_all_matches_listing (got : result (option get_result))
  (body : listing) (t : list event) (a : reply deletion) :
  exec list_documents [EGet got] (Success body) →
  exec delete_all_documents (EGet got :: t) a →
  match total_chunks body with
  | O =>
      t = [] ∧
      a = Success {| message := lit "No documents to delete";
                     chunks_deleted := 0 |}
  | S _ =>
      ∃ result deleted,
        got = Ok result ∧
        t = [EDelete (ids_of result) deleted] ∧
        length (ids_of result) = total_chunks body ∧
        a = match deleted with
            | Ok _ =>
                Success {| message :=
                             lit "Successfully deleted all documents";
                           chunks_deleted := total_chunks body |}
            | Raise e =>
                Failure 500
                  (lit "Failed to delete all documents: " ++ exn_str e)
            end
  end.
Proof.
  intros Hlist Hdelete.
  inversion Hlist as [| | | | | | | |next got' t' a' Hbody|]; subst.
  inversion Hdelete as [| | | | | | | |next got' t' a' Hnext|]; subst.
  destruct got as [result|e]; [|by inversion Hbody].
  destruct (count_documents [] (rows_of result)) as [documents|e];
    inversion Hbody; subst.
  cbn [total_chunks].
  destruct (ids_of result) as [|id all_ids] eqn:Hids; cbn [length].
  { by inversion Hnext. }
  inversion Hnext as [| | | | | | | | |? ? deleted t' a' Hend]; subst.
  exists result, deleted. rewrite Hids. split; [done|].
  by destruct deleted as [[]|e]; inversion Hend.
Qed.

(** X12 on the store of three chunks. *)
Lemma delete_all_matches_listing_witness :
  let all_ids := [lit "id1"; lit "id2"; lit "id3"] in
  ∃ result deleted,
    Ok (Some three_rows) = Ok result ∧
    [EDelete all_ids (Ok ())] = [EDelete (ids_of result) deleted] ∧
    length (ids_of result) = 3%nat ∧
    Success {| message := lit "Successfully deleted all documents";
               chunks_deleted := 3 |}
      = match deleted with
        | Ok _ =>
            Success {| message := lit "Successfully deleted all documents";
                       chunks_deleted := 3 |}
        | Raise e =>
            Failure 500
              (lit "Failed to delete all documents: " ++ exn_str e)
        end.
Proof.
  cbv zeta.
  apply (delete_all_matches_listing (Ok (Some three_rows))
           {| total_documents := 2; total_chunks := 3;
              documents := [listed row_a1 2; listed row_b 1] |}).
  - apply exec_Get. vm_compute. apply exec_Pure.
  - apply exec_Get. vm_compute. apply exec_Delete. apply exec_Pure.
Defined.

End BackendProps.

(** ** The upload *)

Module UploadProps.
Import Py Loaders Main Backend BackendSpec UploadSpec.

(** A sequenced program runs its first part and then the second. *)
Lemma exec_bind {A B : Type} (p : io A) (f : A → io B) (t : list event)
  (b : B) :
  exec (io_bind p f) t b →
  ∃ t1 a t2, t = t1 ++ t2 ∧ exec p t1 a ∧ exec (f a) t2 b.
Proof.
  revert t.
  induction p as [a|next IH|next IH|? ? next IH|? ? next IH|? next IH
                 |? ? ? next IH|? next IH|next IH|? next IH];
    intros t Hexec; cbn in Hexec.
  { exists [], a, t. split; [done|]. split; [constructor|done]. }
  all: inv Hexec;
    match goal with
    | H : exec (io_bind _ _) _ _ |- _ =>
        destruct (IH _ _ H) as (t1 & a & t2 & -> & H1 & H2)
    end;
    eexists (_ :: t1), a, t2; split; [done|]; split; [by constructor|done].
Qed.

(** What an execution of each call looks like. *)
Lemma exec_Pure_inv {A : Type} (a b : A) (t : list event) :
  exec (Pure a) t b → t = [] ∧ b = a.
Proof. intros Hexec. by inversion Hexec. Qed.

Lemma exec_Time_inv {A : Type} (next : Z → io A) (t : list event) (a : A) :
  exec (Time next) t a → ∃ now t', t = ETime now :: t' ∧ exec (next now) t' a.
Proof. intros Hexec. inversion Hexec; subst. by eexists _, _. Qed.

Lemma exec_Uuid4Hex_inv {A : Type} (next : str → io A) (t : list event)
  (a : A) :
  exec (Uuid4Hex next) t a →
  ∃ hex t', t = EUuid4Hex hex :: t' ∧ exec (next hex) t' a.
Proof. intros Hexec. inversion Hexec; subst. by eexists _, _. Qed.

Lemma exec_TempFile_inv {A : Type} (sfx : str) (content : list Byte.byte)
  (next : result Path → io A) (t : list event) (a : A) :
  exec (TempFile sfx content next) t a →
  ∃ r t', t = ETempFile sfx content r :: t' ∧ exec (next r) t' a.
Proof. intros Hexec. inversion Hexec; subst. by eexists _, _. Qed.

Lemma exec_Load_inv {A : Type} (l : loader) (path : Path)
  (next : result (list Document) → io A) (t : list event) (a : A) :
  exec (Load l path next) t a →
  ∃ r t', t = ELoad l path r :: t' ∧ exec (next r) t' a.
Proof. intros Hexec. inversion Hexec; subst. by eexists _, _. Qed.

Lemma exec_Unlink_inv {A : Type} (path : Path) (next : result unit → io A)
  (t : list event) (a : A) :
  exec (Unlink path next) t a →
  ∃ r t', t = EUnlink path r :: t' ∧ exec (next r) t' a.
Proof. intros Hexec. inversion Hexec; subst. by eexists _, _. Qed.

Lemma exec_Split_inv {A : Type} (docs : list Document) (size overlap : Z)
  (next : result (list Document) → io A) (t : list event) (a : A) :
  exec (Split docs size overlap next) t a →
  ∃ r t', t = ESplit docs size overlap r :: t' ∧ exec (next r) t' a.
Proof. intros Hexec. inversion Hexec; subst. by eexists _, _. Qed.

Lemma exec_Add_inv {A : Type} (chunks : list Document)
  (next : result (list str) → io A) (t : list event) (a : A) :
  exec (Add chunks next) t a →
  ∃ r t', t = EAdd chunks r :: t' ∧ exec (next r) t' a.
Proof. intros Hexec. inversion Hexec; subst. by eexists _, _. Qed.

(** How [temp_files_tidy] is kept along the calls. *)
Lemma tidy_nil : temp_files_tidy [].
Proof. split; intros i; intros; by destruct i. Qed.

Lemma tidy_skip (e : event) (t : list event) :
  (∀ sfx content path, e ≠ ETempFile sfx content (Ok path)) →
  (∀ path unlinked, e ≠ EUnlink path unlinked) →
  temp_files_tidy t → temp_files_tidy (e :: t).
Proof.
  intros Htemp Hunlink [Hused Hmade]. split.
  - intros [|i] sfx content path Hi.
    { injection Hi as ->. by destruct (Htemp sfx content path). }
    by apply (Hused i sfx content path).
  - intros [|j] path unlinked Hj.
    { injection Hj as ->. by destruct (Hunlink path unlinked). }
    destruct (Hmade j path unlinked Hj) as (i & sfx & content & -> & Hi).
    by exists (S i), sfx, content.
Qed.

Lemma tidy_file (sfx : str) (content : list Byte.byte) (path : Path)
  (l : loader) (loaded : result (list Document)) (unlinked : result unit)
  (t : list event) :
  temp_files_tidy t →
  temp_files_tidy (ETempFile sfx content (Ok path) :: ELoad l path loaded
                   :: EUnlink path unlinked :: t).
Proof.
  intros [Hused Hmade]. split.
  - intros [|[|[|i]]] sfx' content' path' Hi; try discriminate.
    { injection Hi as -> -> ->. by exists l, loaded, unlinked. }
    by apply (Hused i sfx' content' path').
  - intros [|[|[|j]]] path' unlinked' Hj; try discriminate.
    { injection Hj as -> ->. by exists 0%nat, sfx, content. }
    destruct (Hmade j path' unlinked' Hj) as (i & sfx' & content' & -> & Hi).
    by exists (S (S (S i))), sfx', content'.
Qed.

Lemma tidy_app (t1 t2 : list event) :
  temp_files_tidy t1 →
  Forall (λ e, (∀ sfx content path, e ≠ ETempFile sfx content (Ok path)) ∧
               (∀ path unlinked, e ≠ EUnlink path unlinked)) t2 →
  temp_files_tidy (t1 ++ t2).
Proof.
  intros [Hused Hmade] Hrest. rewrite Forall_lookup in Hrest. split.
  - intros i sfx content path Hi.
    apply lookup_app_Some in Hi as [Hi|[_ Hi]].
    + destruct (Hused i sfx content path Hi) as (l & loaded & unlinked & ? & ?).
      exists l, loaded, unlinked. by split; apply lookup_app_l_Some.
    + destruct (Hrest _ _ Hi) as [Hno _]. by destruct (Hno sfx content path).
  - intros j path unlinked Hj.
    apply lookup_app_Some in Hj as [Hj|[_ Hj]].
    + destruct (Hmade j path unlinked Hj) as (i & sfx & content & -> & Hi).
      exists i, sfx, content. split; [done|]. by apply lookup_app_l_Some.
    + destruct (Hrest _ _ Hj) as [_ Hno]. by destruct (Hno path unlinked).
Qed.

(** [load_file] leaves the text of a document as the loader gave it. *)
Lemma enrich_contents (path : Path) (base : dict) (ds : list Document) :
  page_content <$> imap (enrich path base) ds = page_content <$> ds.
Proof.
  apply list_eq. intros i.
  rewrite !list_lookup_fmap, list_lookup_imap. by destruct (ds !! i).
Qed.

Section Uploading.
Variable lower : str → str.
Variable suffix_of : str → str.
Variable settings : Settings.

(** One round of the loop. *)
Lemma upload_files_step (ts : Z) (f : UploadFile) (files : list UploadFile)
  (up : list str) (docs : list Document) (t : list event)
  (r : result (list str * list Document)) :
  exec (upload_files lower suffix_of ts (f :: files) up docs) t r →
  ∃ hex,
    match read f with
    | Raise e => t = [EUuid4Hex hex] ∧ r = Raise e
    | Ok content =>
        ∃ created,
          match created with
          | Raise e =>
              t = [EUuid4Hex hex;
                   ETempFile (suffix_of (filename f)) content (Raise e)] ∧
              r = Raise e
          | Ok path =>
              ∃ loaded unlinked t',
                t = EUuid4Hex hex
                    :: ETempFile (suffix_of (filename f)) content (Ok path)
                    :: ELoad (select_loader (lower (suffix path))) path
                         loaded
                    :: EUnlink path unlinked :: t' ∧
                match unlinked, loaded with
                | Raise e, _ => t' = [] ∧ r = Raise e
                | Ok _, Raise e => t' = [] ∧ r = Raise e
                | Ok _, Ok ds =>
                    exec (upload_files lower suffix_of ts files
                            (up ++ [filename f])
                            (docs ++
                             imap (enrich path
                                     (base_metadata lower path
                                        (Some (file_metadata f ts
                                                 (prefix_slice 8 hex)
                                                 (length content)))))
                               ds))
                      t' r
                end
          end
    end.
Proof.
  cbn [upload_files]. intros Hexec.
  apply exec_Uuid4Hex_inv in Hexec as (hex & t1 & -> & Hexec). exists hex.
  destruct (read f) as [content|e].
  2:{ by apply exec_Pure_inv in Hexec as [-> ->]. }
  apply exec_TempFile_inv in Hexec as (created & t2 & -> & Hexec).
  exists created. destruct created as [path|e].
  2:{ by apply exec_Pure_inv in Hexec as [-> ->]. }
  apply exec_Load_inv in Hexec as (loaded & t3 & -> & Hexec).
  apply exec_Unlink_inv in Hexec as (unlinked & t4 & -> & Hexec).
  exists loaded, unlinked, t4. split; [done|].
  unfold load_file in Hexec.
  destruct unlinked as [[]|e], loaded as [ds|e'];
    first [exact Hexec|by apply exec_Pure_inv in Hexec as [-> ->]].
Qed.

Ltac loop_cases Hexec :=
  let hex := fresh "hex" in
  let content := fresh "content" in
  let path := fresh "path" in
  let loaded := fresh "loaded" in
  let unlinked := fresh "unlinked" in
  let t' := fresh "t'" in
  let ds := fresh "ds" in
  let e := fresh "e" in
  let e' := fresh "e'" in
  let Hread := fresh "Hread" in
  apply upload_files_step in Hexec as [hex Hexec];
  destruct (read _) as [content|e] eqn:Hread;
  [destruct Hexec as [[path|e] Hexec];
   [destruct Hexec as (loaded & unlinked & t' & -> & Hexec);
    destruct unlinked as [[]|e], loaded as [ds|e'];
    [|destruct Hexec as [-> ->]..]
   |destruct Hexec as [-> ->]]
  |destruct Hexec as [-> ->]].

(** The calls of the loop are calls on files, and they are tidy. *)
Lemma upload_files_calls (ts : Z) (files : list UploadFile)
  (up : list str) (docs : list Document) (t : list event)
  (r : result (list str * list Document)) :
  exec (upload_files lower suffix_of ts files up docs) t r →
  Forall file_call t ∧ temp_files_tidy t.
Proof.
  revert up docs t.
  induction files as [|f files IH]; intros up docs t Hexec.
  { apply exec_Pure_inv in Hexec as [-> _]. split; [done|apply tidy_nil]. }
  loop_cases Hexec.
  1: destruct (IH _ _ _ Hexec) as [Hcalls Htidy].
  all: split; [by repeat constructor|].
  all: apply tidy_skip; [done..|].
  1-4: by apply tidy_file; first [apply tidy_nil|done].
  - apply tidy_skip; [done..|apply tidy_nil].
  - apply tidy_nil.
Qed.

(** What the loop ends with. *)
Lemma upload_files_result (ts : Z) (files : list UploadFile)
  (up : list str) (docs : list Document) (t : list event)
  (r : result (list str * list Document)) :
  exec (upload_files lower suffix_of ts files up docs) t r →
  match r with
  | Ok (up', docs') =>
      up' = up ++ (filename <$> files) ∧
      length t = (length files * 4)%nat ∧
      omap raised t = [] ∧
      Forall (λ f, ∃ content, read f = Ok content) files ∧
      page_content <$> docs'
        = (page_content <$> docs) ++ (page_content <$> loaded_docs t) ∧
      ∀ d, d ∈ docs' →
        d ∈ docs ∨ ∃ n pv, from_file lower suffix_of ts files t d n pv
  | Raise e =>
      last (omap raised t) = Some e ∨
      (omap raised t = [] ∧ ∃ f, f ∈ files ∧ read f = Raise e)
  end.
Proof.
  revert up docs t.
  induction files as [|f files IH]; intros up docs t Hexec.
  { apply exec_Pure_inv in Hexec as [-> ->].
    rewrite !app_nil_r. repeat split; [done|]. by left. }
  loop_cases Hexec.
  2-5: by left.
  2:{ right. split; [done|]. exists f. split; [apply list_elem_of_here|done]. }
  specialize (IH _ _ _ Hexec). destruct r as [[up' docs']|e].
  - destruct IH as (-> & Hlen & Hraised & Hread' & Htexts & Hfrom).
    split; [by rewrite <- app_assoc|]. split; [cbn; by rewrite Hlen|].
    split; [done|]. split; [apply Forall_cons; eauto|]. split.
    { rewrite Htexts, fmap_app, enrich_contents, <- app_assoc.
      unfold loaded_docs. cbn. by rewrite fmap_app. }
    intros d Hd. destruct (Hfrom d Hd) as [Hin|(n & pv & Hpv)].
    + apply elem_of_app in Hin as [Hin|Hin]; [by left|]. right.
      apply elem_of_lookup_imap in Hin as (i & d0 & -> & Hi).
      exists 0%nat,
        {| pv_file := f; pv_hex := hex; pv_content := content;
           pv_path := path; pv_loaded := ds; pv_index := i;
           pv_doc := d0 |}.
      by repeat split.
    + right. exists (S n), pv.
      destruct Hpv as (? & ? & ? & ? & ? & ? & ?). by repeat split.
  - destruct IH as [Hlast|(Hnone & f' & Hf' & Hraise)]; [by left|].
    right. split; [done|]. exists f'. split; [|done].
    by apply list_elem_of_further.
Qed.

(** The calls of [upload] on a non-empty list: the clock, the loop, and
    then the splitter and the store if the loop came to its end. *)
Lemma upload_exec (f : UploadFile) (files : list UploadFile)
  (t : list event) (a : reply upload_body) :
  exec (upload lower suffix_of settings (f :: files)) t a →
  ∃ now t1 r,
    exec (upload_files lower suffix_of now (f :: files) [] []) t1 r ∧
    match r with
    | Raise e =>
        t = ETime now :: t1 ∧
        a = Failure 500 (lit "Upload failed: " ++ exn_str e)
    | Ok (up, docs) =>
        ∃ split,
          match split with
          | Raise e =>
              t = ETime now :: t1 ++
                    [ESplit docs (chunk_size settings)
                       (chunk_overlap settings) (Raise e)] ∧
              a = Failure 500 (lit "Upload failed: " ++ exn_str e)
          | Ok pieces =>
              ∃ added,
                t = ETime now :: t1 ++
                      [ESplit docs (chunk_size settings)
                         (chunk_overlap settings) (Ok pieces);
                       EAdd pieces added] ∧
                a = match added with
                    | Raise e =>
                        Failure 500 (lit "Upload failed: " ++ exn_str e)
                    | Ok _ =>
                        Success {| indexed_files := up;
                                   chunks := length pieces |}
                    end
          end
    end.
Proof.
  unfold upload. intros Hexec.
  apply exec_Time_inv in Hexec as (now & t' & -> & Hexec).
  apply exec_bind in Hexec as (t1 & r & t2 & -> & Hloop & Hexec).
  exists now, t1, r. split; [done|]. destruct r as [[up docs]|e].
  2:{ apply exec_Pure_inv in Hexec as [-> ->]. by rewrite app_nil_r. }
  apply exec_Split_inv in Hexec as (split & t3 & -> & Hexec).
  exists split. destruct split as [pieces|e].
  2:{ by apply exec_Pure_inv in Hexec as [-> ->]. }
  apply exec_Add_inv in Hexec as (added & t4 & -> & Hexec).
  exists added.
  by destruct added as [ids|e]; apply exec_Pure_inv in Hexec as [-> ->].
Qed.

(** X13: whatever [upload] answers, every temporary file that it created
    and wrote without an exception is loaded by the next call and unlinked
    by the call after that, also when the loader raises; and it unlinks no
    other file. *)
Theorem upload_temp_files (files : list UploadFile) (t : list event)
  (a : reply upload_body) :
  exec (upload lower suffix_of settings files) t a → temp_files_tidy t.
Proof.
  destruct files as [|f files]; intros Hexec.
  { apply exec_Pure_inv in Hexec as [-> _]. apply tidy_nil. }
  apply upload_exec in Hexec as (now & t1 & r & Hloop & Hrest).
  apply upload_files_calls in Hloop as [_ Htidy].
  assert (∀ rest,
            Forall (λ e, (∀ sfx content path,
                            e ≠ ETempFile sfx content (Ok path)) ∧
                         (∀ path unlinked, e ≠ EUnlink path unlinked)) rest →
            temp_files_tidy (ETime now :: t1 ++ rest)) as Hall.
  { intros rest Hrest'. apply tidy_skip; [done..|]. by apply tidy_app. }
  destruct r as [[up docs]|e].
  - destruct Hrest as [[pieces|e] Hrest].
    + destruct Hrest as (added & -> & _). apply Hall. by repeat constructor.
    + destruct Hrest as [-> _]. apply Hall. by repeat constructor.
  - destruct Hrest as [-> _]. rewrite <- (app_nil_r t1). apply Hall.
    constructor.
Qed.

(** X14: [upload] hands documents to the vector store at most once, as its
    last call, and only when every file was read and went through its four
    calls (uuid, temporary file, loader, unlink) without an exception and
    the splitter answered: one file that fails keeps all of them out of
    the store.  What is added is what the splitter returned, and the
    splitter was given the texts of the loaders' documents in order. *)
Theorem upload_adds_once (files : list UploadFile) (t : list event)
  (a : reply upload_body) :
  exec (upload lower suffix_of settings files) t a →
  ∀ pieces added, EAdd pieces added ∈ t →
    ∃ now t1 docs,
      t = ETime now :: t1 ++
            [ESplit docs (chunk_size settings) (chunk_overlap settings)
               (Ok pieces);
             EAdd pieces added] ∧
      length t1 = (length files * 4)%nat ∧
      Forall file_call t1 ∧
      omap raised t1 = [] ∧
      Forall (λ f, ∃ content, read f = Ok content) files ∧
      page_content <$> docs = page_content <$> loaded_docs t1.
Proof.
  destruct files as [|f files]; intros Hexec pieces added Hadd.
  { apply exec_Pure_inv in Hexec as [-> _]. by apply elem_of_nil in Hadd. }
  apply upload_exec in Hexec as (now & t1 & r & Hloop & Hrest).
  pose proof (upload_files_calls _ _ _ _ _ _ Hloop) as [Hcalls _].
  apply upload_files_result in Hloop.
  assert (EAdd pieces added ∉ t1) as Hnot.
  { intros Hin. rewrite Forall_forall in Hcalls. apply (Hcalls _ Hin). }
  destruct r as [[up docs]|e].
  2:{ destruct Hrest as [-> _]. by apply elem_of_cons in Hadd as [?|?]. }
  destruct Hloop as (_ & Hlen & Hraised & Hread & Htexts & _).
  destruct Hrest as [[pieces'|e] Hrest].
  2:{ destruct Hrest as [-> _].
      apply elem_of_cons in Hadd as [?|Hadd]; [done|].
      apply elem_of_app in Hadd as [?|Hadd]; [done|].
      by apply list_elem_of_singleton in Hadd. }
  destruct Hrest as (added' & -> & _).
  apply elem_of_cons in Hadd as [?|Hadd]; [done|].
  apply elem_of_app in Hadd as [?|Hadd]; [done|].
  apply elem_of_cons in Hadd as [?|Hadd]; [done|].
  apply list_elem_of_singleton in Hadd. injection Hadd as -> ->.
  by exists now, t1, docs.
Qed.

(** X15: the answer of [upload].  A success names every file of the
    request in order and counts the pieces of the one successful call to
    the store, which is the last call, and no call raised.  A failure is
    400 with no call at all when there is no file; otherwise it is 500,
    nothing was added to the store, and the detail carries the exception
    of the last call that raised, or that of a file that could not be
    read. *)
Theorem upload_reply (files : list UploadFile) (t : list event)
  (a : reply upload_body) :
  exec (upload lower suffix_of settings files) t a →
  match a with
  | Success body =>
      files ≠ [] ∧
      indexed_files body = filename <$> files ∧
      omap raised t = [] ∧
      ∃ pieces ids,
        last t = Some (EAdd pieces (Ok ids)) ∧ chunks body = length pieces
  | Failure code detail =>
      match files with
      | [] => t = [] ∧ code = 400 ∧ detail = lit "No files provided"
      | _ :: _ =>
          code = 500 ∧
          (∀ pieces ids, EAdd pieces (Ok ids) ∉ t) ∧
          ∃ e, detail = lit "Upload failed: " ++ exn_str e ∧
               (last (omap raised t) = Some e ∨
                (omap raised t = [] ∧ ∃ f, f ∈ files ∧ read f = Raise e))
      end
  end.
Proof.
  destruct files as [|f files]; intros Hexec.
  { by apply exec_Pure_inv in Hexec as [-> ->]. }
  apply upload_exec in Hexec as (now & t1 & r & Hloop & Hrest).
  pose proof (upload_files_calls _ _ _ _ _ _ Hloop) as [Hcalls _].
  apply upload_files_result in Hloop.
  assert (∀ pieces ids, EAdd pieces (Ok ids) ∉ t1) as Hnot.
  { intros pieces ids Hin. rewrite Forall_forall in Hcalls.
    apply (Hcalls _ Hin). }
  destruct r as [[up docs]|e].
  2:{ destruct Hrest as [-> ->]. split; [done|]. split.
      { intros pieces ids Hin.
        apply elem_of_cons in Hin as [?|Hin]; [done|]. by eapply Hnot. }
      by exists e. }
  destruct Hloop as (-> & _ & Hraised & _).
  destruct Hrest as [[pieces|e] Hrest].
  2:{ destruct Hrest as [-> ->]. split; [done|]. split.
      { intros pieces ids Hin.
        apply elem_of_cons in Hin as [?|Hin]; [done|].
        apply elem_of_app in Hin as [Hin|Hin]; [by eapply Hnot|].
        by apply list_elem_of_singleton in Hin. }
      exists e. split; [done|]. left. cbn [omap list_omap raised].
      by rewrite omap_app, Hraised. }
  destruct Hrest as ([ids|e] & -> & ->).
  - split; [done|]. split; [done|]. split.
    { cbn [omap list_omap raised]. by rewrite omap_app, Hraised. }
    exists pieces, ids. split; [|done].
    rewrite last_cons, last_app. done.
  - split; [done|]. split.
    { intros pieces' ids Hin.
      apply elem_of_cons in Hin as [?|Hin]; [done|].
      apply elem_of_app in Hin as [Hin|Hin]; [by eapply Hnot|].
      apply elem_of_cons in Hin as [?|Hin]; [done|].
      by apply list_elem_of_singleton in Hin. }
    exists e. split; [done|]. left. cbn [omap list_omap raised].
    by rewrite omap_app, Hraised.
Qed.





End Uploading.

(** The two example uploads are executions of [upload]. *)
Lemma notes_upload :
  exec (upload same_case md_suffix default_settings [notes_file]) notes_calls
    (Success {| indexed_files := [lit "notes.md"]; chunks := 1 |}).
Proof. repeat (vm_compute; constructor). Qed.

Lemma broken_upload :
  exec (upload same_case md_suffix default_settings [notes_file])
    broken_calls (Failure 500 (lit "Upload failed: cannot parse")).
Proof. repeat (vm_compute; constructor). Qed.

(** X13 on the upload whose loader raises. *)
Lemma upload_temp_files_witness :
  exec (upload same_case md_suffix default_settings [notes_file])
    broken_calls (Failure 500 (lit "Upload failed: cannot parse")) ∧
  temp_files_tidy broken_calls.
Proof.
  split; [exact broken_upload|].
  exact (upload_temp_files same_case md_suffix default_settings
           [notes_file] broken_calls _ broken_upload).
Defined.

(** X14 on the upload of the notes. *)
Lemma upload_adds_once_witness :
  EAdd notes_docs (Ok [lit "id1"]) ∈ notes_calls ∧
  ∃ now t1 docs,
    notes_calls
      = ETime now :: t1 ++
          [ESplit docs 1500 200 (Ok notes_docs);
           EAdd notes_docs (Ok [lit "id1"])] ∧
    length t1 = 4%nat ∧
    Forall file_call t1 ∧
    omap raised t1 = [] ∧
    Forall (λ f, ∃ content, read f = Ok content) [notes_file] ∧
    page_content <$> docs = page_content <$> loaded_docs t1.
Proof.
  assert (EAdd notes_docs (Ok [lit "id1"]) ∈ notes_calls) as Hadd.
  { unfold notes_calls.
    repeat first [apply list_elem_of_here|apply list_elem_of_further]. }
  split; [exact Hadd|].
  exact (upload_adds_once same_case md_suffix default_settings
           [notes_file] notes_calls _ notes_upload _ _ Hadd).
Defined.

(** X15 on the upload of the notes. *)
Lemma upload_reply_witness :
  [notes_file] ≠ [] ∧
  [lit "notes.md"] = filename <$> [notes_file] ∧
  omap raised notes_calls = [] ∧
  ∃ pieces ids,
    last notes_calls = Some (EAdd pieces (Ok ids)) ∧ 1%nat = length pieces.
Proof.
  exact (upload_reply same_case md_suffix default_settings
           [notes_file] notes_calls _ notes_upload).
Defined.


End UploadProps.
